(** * lieu crawler (crawler/crawler.go): policy layer of the webring crawler

    A shallow embedding of [crawler.go]: the link normalizer [getLink], the
    site registry [getDomains], the discovery protocol [Precrawl] and the
    element handlers that [Crawl] and [handleIndexing] register.

    Go strings are byte sequences: they are [string] values here, and the
    functions of Go's [strings] package are written on the underlying
    [list ascii].  Go's [int] is the 64-bit two's complement integer; it is
    a [Z] kept in range by [wrap64]. *)

From Stdlib Require Import ZArith Ascii String List Lia.
From stdpp Require Import base tactics option list sets gmap strings.

Local Open Scope Z_scope.

(** ** Bytes and the Go [strings] package *)

Abbreviation bytes := (list ascii).

Definition to_bytes (s : string) : bytes := list_ascii_of_string s.
Definition of_bytes (l : bytes) : string := string_of_list_ascii l.

Definition byte_seq (l : list nat) : bytes := map ascii_of_nat l.

Module GoStrings.

(** The UTF-8 encodings of the runes for which [unicode.IsSpace] holds:
    U+0009..U+000D, U+0020, U+0085, U+00A0, U+1680, U+2000..U+200A,
    U+2028, U+2029, U+202F, U+205F, U+3000.  A string starts (or ends)
    with a white space rune exactly when one of these byte sequences is a
    prefix (or suffix) of it: [utf8.DecodeRune] and [utf8.DecodeLastRune]
    give [RuneError], which is no space, on every other byte sequence. *)
Definition unicode_space : list bytes :=
  map byte_seq
    [ [9]; [10]; [11]; [12]; [13]; [32];
      [194; 133]; [194; 160];
      [225; 154; 128];
      [226; 128; 128]; [226; 128; 129]; [226; 128; 130]; [226; 128; 131];
      [226; 128; 132]; [226; 128; 133]; [226; 128; 134]; [226; 128; 135];
      [226; 128; 136]; [226; 128; 137]; [226; 128; 138];
      [226; 128; 168]; [226; 128; 169]; [226; 128; 175];
      [226; 129; 159];
      [227; 128; 128] ]%nat.

(** The runes of Unicode category Z (regexp class [\p{Z}]): the spaces
    above without the controls U+0009..U+000D and U+0085. *)
Definition unicode_Z : list bytes :=
  map byte_seq
    [ [32];
      [194; 160];
      [225; 154; 128];
      [226; 128; 128]; [226; 128; 129]; [226; 128; 130]; [226; 128; 131];
      [226; 128; 132]; [226; 128; 133]; [226; 128; 134]; [226; 128; 135];
      [226; 128; 136]; [226; 128; 137]; [226; 128; 138];
      [226; 128; 168]; [226; 128; 169]; [226; 128; 175];
      [226; 129; 159];
      [227; 128; 128] ]%nat.

Definition has_prefix (s p : bytes) : bool := bool_decide (p `prefix_of` s).
Definition has_suffix (s p : bytes) : bool := bool_decide (p `suffix_of` s).

(** [strings.Contains]: [sub] occurs in [s] as a contiguous run. *)
Fixpoint contains (s sub : bytes) : bool :=
  has_prefix s sub ||
  match s with
  | [] => false
  | _ :: s' => contains s' sub
  end.

(** [strings.Split(s, sep)[0]] for a non-empty separator: the part of [s]
    before the first occurrence of [sep], all of [s] when there is none. *)
Fixpoint split_first (s sep : bytes) : bytes :=
  match s with
  | [] => []
  | a :: s' => if has_prefix s sep then [] else a :: split_first s' sep
  end.

(** The pattern of [pats] that [s] starts with, if any. *)
Definition leading (pats : list bytes) (s : bytes) : option bytes :=
  List.find (has_prefix s) pats.

(** Drop leading patterns as long as there is one; [skip] counts the bytes
    of the current pattern still to be dropped. *)
Fixpoint trim_front (pats : list bytes) (skip : nat) (s : bytes) : bytes :=
  match s with
  | [] => []
  | _ :: s' =>
      match skip with
      | S k => trim_front pats k s'
      | O =>
          match leading pats s with
          | Some p => trim_front pats (Nat.pred (length p)) s'
          | None => s
          end
      end
  end.

Definition trim_left_space (s : bytes) : bytes := trim_front unicode_space 0 s.
Definition trim_right_space (s : bytes) : bytes :=
  reverse (trim_front (map reverse unicode_space) 0 (reverse s)).

(** [strings.TrimSpace] is [TrimRightFunc(TrimLeftFunc(s, IsSpace), IsSpace)];
    its ASCII fast path computes the same string. *)
Definition trim_space (s : bytes) : bytes := trim_right_space (trim_left_space s).

Definition trim_suffix (s suffix : bytes) : bytes :=
  if has_suffix s suffix then take (length s - length suffix)%nat s else s.

Definition replace_byte (old new : ascii) (s : bytes) : bytes :=
  map (fun a => if bool_decide (a = old) then new else a) s.

(** [regexp.MustCompile(`\p{Z}+`).ReplaceAllString(s, " ")]: every maximal
    run of category-Z runes becomes one space.  [in_run] tells that the
    previous rune belonged to a run, [skip] as in [trim_front]. *)
Fixpoint collapse_Z (in_run : bool) (skip : nat) (s : bytes) : bytes :=
  match s with
  | [] => []
  | a :: s' =>
      match skip with
      | S k => collapse_Z in_run k s'
      | O =>
          match leading unicode_Z s with
          | Some p =>
              (if in_run then [] else [" "%char])
                ++ collapse_Z true (Nat.pred (length p)) s'
          | None => a :: collapse_Z false 0 s'
          end
      end
  end.

Definition Contains (s substr : string) : bool := contains (to_bytes s) (to_bytes substr).
Definition HasPrefix (s prefix : string) : bool := has_prefix (to_bytes s) (to_bytes prefix).
Definition HasSuffix (s suffix : string) : bool := has_suffix (to_bytes s) (to_bytes suffix).
Definition SplitFirst (s sep : string) : string := of_bytes (split_first (to_bytes s) (to_bytes sep)).
Definition TrimSpace (s : string) : string := of_bytes (trim_space (to_bytes s)).
Definition TrimSuffix (s suffix : string) : string := of_bytes (trim_suffix (to_bytes s) (to_bytes suffix)).

(** [strings.ReplaceAll(s, old, new)] for one-byte [old] and [new]. *)
Definition ReplaceAll (s : string) (old new : ascii) : string :=
  of_bytes (replace_byte old new (to_bytes s)).

(** [whitespace.ReplaceAllString(s, " ")] for the expression [\p{Z}+]. *)
Definition ReplaceAllZ (s : string) : string :=
  of_bytes (collapse_Z false 0 (to_bytes s)).

(** [len(s)]: the number of bytes. *)
Definition len (s : string) : Z := Z.of_nat (String.length s).

(** [s] ends with a white space rune. *)
Definition EndsWithSpace (s : string) : bool :=
  existsb (has_suffix (to_bytes s)) unicode_space.

End GoStrings.

(** ** Link normalizer *)

Definition getLink (target : string) : string :=
  let target :=
    if GoStrings.Contains target "#" then GoStrings.SplitFirst target "#" else target in
  let target :=
    if GoStrings.Contains target "?" then GoStrings.SplitFirst target "?" else target in
  let target := GoStrings.TrimSpace target in
  GoStrings.TrimSuffix target "/".

(** ** Integers *)

(** Go's [int] on a 64-bit platform: arithmetic wraps around. *)
Definition wrap64 (z : Z) : Z := (z + 2 ^ 63) mod 2 ^ 64 - 2 ^ 63.

Definition int_range (z : Z) : Prop := - 2 ^ 63 <= z < 2 ^ 63.

(** ** Collaborators

    [net/url], [colly], [goquery], [net/http], [encoding/json] and the
    [lieu/util] and [lieu/types] packages are not part of [crawler.go].
    A parsed URL is the record of what the code reads from a [*url.URL]. *)

Record URL := mkURL {
  Hostname : string;     (* u.Hostname() *)
  Path : string;         (* u.Path *)
  URL_String : string    (* u.String() *)
}.

Class Collaborators := {
  (** [url.Parse]; [None] when it returns an error *)
  url_Parse : string -> option URL;
  (** [strings.ToLower], with the case tables of Unicode *)
  strings_ToLower : string -> string;
  (** [util.Contains] of [lieu/util] *)
  util_Contains : list string -> string -> bool
}.

(** What a callback reads from a [*colly.HTMLElement]. *)
Record HTMLElement := mkElement {
  Attr : string -> string;                 (* e.Attr(k) *)
  Text : string;                           (* e.Text *)
  DOM_Find : string -> list string;        (* texts of e.DOM.Find(sel), in document order *)
  ChildTexts : string -> list string;      (* e.ChildTexts(sel) *)
  Request_URL : URL;                       (* e.Request.URL *)
  Request_AbsoluteURL : string -> string;  (* e.Request.AbsoluteURL *)
  Response_StatusCode : Z                  (* e.Response.StatusCode *)
}.

Definition with_status (code : Z) (e : HTMLElement) : HTMLElement :=
  mkElement (Attr e) (Text e) (DOM_Find e) (ChildTexts e)
            (Request_URL e) (Request_AbsoluteURL e) code.

(** The configuration, with every list as [util.ReadList] loads it from the
    file that the configuration names; [Crawler_Webring] holds the lines of
    the seed file, which [getWebringLinks] reads. *)
Record Config := mkConfig {
  General_URL : string;
  General_Proxy : string;
  Crawler_Webring : list string;
  Crawler_BannedDomains : list string;
  Crawler_BannedSuffixes : list string;
  Crawler_BoringDomains : list string;
  Crawler_BoringWords : list string;
  Crawler_PreviewQueries : list string;
  Data_Heuristics : list string
}.

(** ** Helpers of crawler.go *)

Definition getPreviewQueries (previewQueries : list string) : list string :=
  if (0 <? Z.of_nat (length previewQueries)) then previewQueries
  else ["main p"; "article p"; "section p"; "p"].

Fixpoint find (list : list string) (query : string) : bool :=
  match list with
  | [] => false
  | item :: rest => if bool_decide (item = query) then true else find rest query
  end.

Definition cleanText (s : string) : string :=
  let s := GoStrings.TrimSpace s in
  let s := GoStrings.ReplaceAll s "010" " " in
  GoStrings.ReplaceAllZ s.

Section Helpers.
Context `{Collaborators}.

Fixpoint findSuffix (suffixes : list string) (query : string) : bool :=
  match suffixes with
  | [] => false
  | suffix :: rest =>
      if GoStrings.HasSuffix (strings_ToLower query) suffix then true
      else findSuffix rest query
  end.

(** The test of line 113, as written. *)
Definition is_pathsite (u : URL) : bool :=
  (0 <? GoStrings.len (Path u)) &&
  (bool_decide (Path u <> "/") || bool_decide (Path u <> "index.html")).

Definition getDomains (links : list string) : list string * list string :=
  fold_left
    (fun '(domains, pathsites) l =>
       match url_Parse l with
       | None => (domains, pathsites)
       | Some u =>
           (domains ++ [Hostname u],
            if is_pathsite u then pathsites ++ [l] else pathsites)
       end)
    links ([], []).

(** [SetupDefaultProxy]: [false] when it returns an error. *)
Definition SetupDefaultProxy (config : Config) : bool :=
  if bool_decide (General_Proxy config = "") then true
  else match url_Parse (General_Proxy config) with
       | Some _ => true
       | None => false
       end.

End Helpers.

(** ** The seed list *)

(** [strings.Split(s, sep)] for a non-empty separator: the fields between
    the occurrences of [sep], found from the left without overlap; [skip]
    counts the bytes of the current occurrence still to be dropped. *)
Fixpoint split_on (sep : bytes) (skip : nat) (s : bytes) : list bytes :=
  match s with
  | [] => [[]]
  | a :: s' =>
      match skip with
      | S k => split_on sep k s'
      | O =>
          if GoStrings.has_prefix s sep
          then [] :: split_on sep (Nat.pred (length sep)) s'
          else match split_on sep 0 s' with
               | field :: fields => (a :: field) :: fields
               | [] => [[a]]
               end
      end
  end.

Definition strings_Split (s sep : string) : list string :=
  map of_bytes (split_on (to_bytes sep) 0 (to_bytes s)).

Definition digit_of (a : ascii) : option Z :=
  let n := nat_of_ascii a in
  if (48 <=? n)%nat && (n <=? 57)%nat then Some (Z.of_nat n - 48) else None.

Fixpoint digits_value (acc : Z) (s : bytes) : option Z :=
  match s with
  | [] => Some acc
  | a :: s' =>
      match digit_of a with
      | Some d => digits_value (10 * acc + d) s'
      | None => None
      end
  end.

(** [strconv.Atoi]: an optional sign and at least one decimal digit, the
    value within [int]; [None] for a syntax or a range error. *)
Definition strconv_Atoi (s : string) : option Z :=
  let '(neg, ds) :=
    match to_bytes s with
    | "-"%char :: r => (true, r)
    | "+"%char :: r => (false, r)
    | b => (false, b)
    end in
  match ds with
  | [] => None
  | _ =>
      match digits_value 0 ds with
      | Some n =>
          let v := if neg then - n else n in
          if (- 2 ^ 63 <=? v) && (v <? 2 ^ 63) then Some v else None
      | None => None
      end
  end.

(** What [getWebringLinks] does with a parsed URL besides what
    [Collaborators] gives: it reads the scheme and sets it. *)
Class Schemes := {
  (** [u.Scheme] *)
  url_Scheme : URL -> string;
  (** [u] after [u.Scheme = "https"] *)
  set_Scheme_https : URL -> URL
}.

Section Seeds.
Context `{Collaborators} `{Schemes}.

(** The loop of lines 80-97 on the lines that [util.ReadList] returns.
    [None] is a panic: of [v[1]] out of range, or the explicit one on an
    error of [strconv.Atoi]. *)
Fixpoint getWebringLinks_loop (candidates : list string)
  (links : list string) (depths : list Z) : option (list string * list Z) :=
  match candidates with
  | [] => Some (links, depths)
  | l :: rest =>
      let v := strings_Split l " " in
      match v !! 0%nat with
      | None => None
      | Some v0 =>
          match url_Parse v0 with
          | None => getWebringLinks_loop rest links depths
          | Some u =>
              let u := if bool_decide (url_Scheme u = "") then set_Scheme_https u else u in
              let links := links ++ [URL_String u] in
              match v !! 1%nat with
              | None => None
              | Some v1 =>
                  match strconv_Atoi v1 with
                  | None => None
                  | Some depth => getWebringLinks_loop rest links (depths ++ [depth])
                  end
              end
          end
      end
  end.

Definition getWebringLinks (candidates : list string) : option (list string * list Z) :=
  getWebringLinks_loop candidates [] [].

(** The link that a seed line gives: its first field, parsed, with the
    scheme https when it has none. *)
Definition seed_link (l : string) : option string :=
  match strings_Split l " " !! 0%nat with
  | Some v0 =>
      match url_Parse v0 with
      | Some u =>
          Some (URL_String (if bool_decide (url_Scheme u = "")
                            then set_Scheme_https u else u))
      | None => None
      end
  | None => None
  end.

(** The depth that a seed line gives: its second field, as an [int]. *)
Definition seed_depth (l : string) : option Z :=
  match strings_Split l " " !! 1%nat with
  | Some v1 => strconv_Atoi v1
  | None => None
  end.

End Seeds.

(** ** The main crawl *)

(** A line of output: [fmt.Println(kind, payload, e.Request.URL, depth)]. *)
Record Line := mkLine {
  kind : string;
  payload : string;
  page : string;
  page_depth : Z
}.

(** The objects the callbacks share: the depth map, the queue (the URLs
    given to [q.AddURL], in order) and standard output. *)
Record CrawlState := mkCrawl {
  linkDepths : gmap string Z;
  queue : list string;
  stdout : list Line
}.

Definition Println (l : Line) (st : CrawlState) : CrawlState :=
  mkCrawl (linkDepths st) (queue st) (stdout st ++ [l]).

Definition AddURL (u : string) (st : CrawlState) : CrawlState :=
  mkCrawl (linkDepths st) (queue st ++ [u]) (stdout st).

Definition set_depth (link : string) (d : Z) (st : CrawlState) : CrawlState :=
  mkCrawl (<[link := d]> (linkDepths st)) (queue st) (stdout st).

(** [linkDepths[k]]: a missing key reads as 0. *)
Definition depth_of (st : CrawlState) (k : string) : Z :=
  default 0 (linkDepths st !! k).

(** [fmt.Println(k, text, e.Request.URL, linkDepths[e.Request.URL.String()])] *)
Definition report (k text : string) (e : HTMLElement) (st : CrawlState) : CrawlState :=
  Println (mkLine k text (URL_String (Request_URL e))
                  (depth_of st (URL_String (Request_URL e)))) st.

(** The variables the callbacks of [Crawl] close over. *)
Record Policy := mkPolicy {
  SUFFIXES : list string;
  domains : list string;
  pathsites : list string;
  initialDomain : string;
  boringDomains : list string;
  boringWords : list string;
  previewQueries : list string;
  heuristics : list string
}.

(** Lines 392-398: the first pathsite that contains the domain, else "". *)
Fixpoint pathsite_for (pathsites : list string) (outgoingDomain : string) : string :=
  match pathsites with
  | [] => ""
  | s :: rest =>
      if GoStrings.Contains s outgoingDomain then s
      else pathsite_for rest outgoingDomain
  end.

Section Callbacks.
Context `{Collaborators} `{Schemes}.

(** Lines 361-410, [c.OnHTML("a[href]", ...)]. *)
Definition OnLink (pol : Policy) (e : HTMLElement) (st : CrawlState) : CrawlState :=
  if (400 <=? Response_StatusCode e) || (Response_StatusCode e <=? 100) then st
  else
    let link := getLink (Attr e "href") in
    if findSuffix (SUFFIXES pol) link then st
    else
      let link := Request_AbsoluteURL e link in
      match url_Parse link with
      | None => st
      | Some u =>
          let outgoingDomain := Hostname u in
          let currentDomain := Hostname (Request_URL e) in
          let st :=
            if negb (util_Contains (boringWords pol) link)
               && negb (util_Contains (boringDomains pol) link)
            then
              if negb (find (domains pol) outgoingDomain)
              then report "non-webring-link" link e st
              else if bool_decide (outgoingDomain <> currentDomain)
                      && bool_decide (outgoingDomain <> initialDomain pol)
                      && bool_decide (currentDomain <> initialDomain pol)
              then report "webring-link" link e st
              else st
            else st in
          let pathsite := pathsite_for (pathsites pol) outgoingDomain in
          if bool_decide (pathsite <> "")
          then if GoStrings.HasPrefix link pathsite then AddURL link st else st
          else AddURL link st
      end.

Definition OnKeywords (e : HTMLElement) (st : CrawlState) : CrawlState :=
  report "keywords" (cleanText (Attr e "content")) e st.

Definition OnDescription (e : HTMLElement) (st : CrawlState) : CrawlState :=
  let desc := cleanText (Attr e "content") in
  if (0 <? GoStrings.len desc) && (GoStrings.len desc <? 1500)
  then report "desc" desc e st else st.

Definition OnOgDescription (e : HTMLElement) (st : CrawlState) : CrawlState :=
  let ogDesc := cleanText (Attr e "content") in
  if (0 <? GoStrings.len ogDesc) && (GoStrings.len ogDesc <? 1500)
  then report "og-desc" ogDesc e st else st.

Definition OnLang (e : HTMLElement) (st : CrawlState) : CrawlState :=
  let lang := cleanText (Attr e "lang") in
  if (0 <? GoStrings.len lang) && (GoStrings.len lang <? 100)
  then report "lang" lang e st else st.

Definition OnTitle (e : HTMLElement) (st : CrawlState) : CrawlState :=
  report "title" (cleanText (Text e)) e st.

(** The inner loop of [QueryLoop] over the elements of one query: the first
    paragraph that is printed, if any. *)
Fixpoint scan_elements (heuristics : list string) (texts : list string) : option string :=
  match texts with
  | [] => None
  | element_text :: rest =>
      let paragraph := cleanText element_text in
      if (GoStrings.len paragraph <? 1500) && (20 <? GoStrings.len paragraph)
         && negb (util_Contains heuristics (strings_ToLower paragraph))
      then Some paragraph
      else scan_elements heuristics rest
  end.

(** The labelled loop: it stops at the first paragraph printed. *)
Fixpoint QueryLoop (heuristics queries : list string) (e : HTMLElement) : option string :=
  match queries with
  | [] => None
  | q :: rest =>
      match scan_elements heuristics (take 4 (DOM_Find e q)) with
      | Some paragraph => Some paragraph
      | None => QueryLoop heuristics rest e
      end
  end.

Definition collectHeadingText (heading : string) (e : HTMLElement) (st : CrawlState) : CrawlState :=
  fold_left
    (fun st headingText =>
       if GoStrings.len headingText <? 500
       then report heading (cleanText headingText) e st else st)
    (ChildTexts e heading) st.

Definition OnBody (pol : Policy) (e : HTMLElement) (st : CrawlState) : CrawlState :=
  let st :=
    match QueryLoop (heuristics pol) (previewQueries pol) e with
    | Some paragraph => report "para" paragraph e st
    | None => st
    end in
  let paragraph := cleanText (hd "" (DOM_Find e "p")) in
  let st :=
    if (GoStrings.len paragraph <? 1500) && (0 <? GoStrings.len paragraph)
    then report "para-just-p" paragraph e st else st in
  let st := collectHeadingText "h1" e st in
  let st := collectHeadingText "h2" e st in
  collectHeadingText "h3" e st.

(** The callbacks, in the order [Crawl] and [handleIndexing] register them. *)
Inductive Callback :=
  | on_a_href | on_keywords | on_description | on_og_description
  | on_lang | on_title | on_body.

Definition callback (pol : Policy) (cb : Callback) : HTMLElement -> CrawlState -> CrawlState :=
  match cb with
  | on_a_href => OnLink pol
  | on_keywords => OnKeywords
  | on_description => OnDescription
  | on_og_description => OnOgDescription
  | on_lang => OnLang
  | on_title => OnTitle
  | on_body => OnBody pol
  end.

(** The callbacks that [handleIndexing] registers. *)
Definition handleIndexing : list Callback :=
  [on_keywords; on_description; on_og_description; on_lang; on_title; on_body].

(** Lines 338-341: the seeds enter the queue and the depth map.  [None] is
    the panic of [depths[i]] out of range. *)
Fixpoint seed (links : list string) (depths : list Z) (i : nat) (st : CrawlState)
  : option CrawlState :=
  match links with
  | [] => Some st
  | link :: rest =>
      match depths !! i with
      | None => None
      | Some d => seed rest depths (S i) (set_depth link d (AddURL link st))
      end
  end.

(** [Crawl] up to [q.Run(c)], lines 311-354: the policy and the state the
    callbacks start from.  [None]: the [log.Fatal] of line 315, a panic of
    [getWebringLinks] in line 318, or the panic of [depths[i]] out of range
    in line 340. *)
Definition Crawl_setup (config : Config) : option (Policy * CrawlState) :=
  if negb (SetupDefaultProxy config) then None
  else
    match getWebringLinks (Crawler_Webring config) with
    | None => None
    | Some (links, depths) =>
        let '(domains, pathsites) := getDomains links in
        match seed links depths 0 (mkCrawl ∅ [] []) with
        | None => None
        | Some st =>
            Some (mkPolicy (Crawler_BannedSuffixes config) domains pathsites
                           (General_URL config)
                           (Crawler_BoringDomains config) (Crawler_BoringWords config)
                           (getPreviewQueries (Crawler_PreviewQueries config))
                           (Data_Heuristics config),
                  st)
        end
    end.

(** [q.Run(c)]: the collector calls the callbacks on the elements of the
    pages it fetches; a run is a sequence of such calls. *)
Definition Crawl_run (pol : Policy) (calls : list (Callback * HTMLElement))
  (st : CrawlState) : CrawlState :=
  fold_left (fun st '(cb, e) => callback pol cb e st) calls st.

End Callbacks.

(** ** The discovery protocol *)

(** [types.Hypha], [types.Site] and [types.Cluster] of [lieu/types], as the
    data model of the specification gives them. *)
Record Hypha := mkHypha { Hypha_Url : string; Hypha_Depth : Z }.
Record Site := mkSite { Site_Url : string; Site_Depth : Z }.
Record Cluster := mkCluster {
  Location : string;
  Hyphae : list string;
  Spores : list string;
  Depth : Z
}.

#[global] Instance Hypha_eq_dec : EqDecision Hypha.
Proof. solve_decision. Defined.

#[global] Instance Site_eq_dec : EqDecision Site.
Proof. solve_decision. Defined.

#[global] Instance Hypha_countable : Countable Hypha.
Proof.
  refine (inj_countable' (fun h => (Hypha_Url h, Hypha_Depth h))
                         (fun p => mkHypha (fst p) (snd p)) _).
  by intros [].
Defined.

#[global] Instance Site_countable : Countable Site.
Proof.
  refine (inj_countable' (fun h => (Site_Url h, Site_Depth h))
                         (fun p => mkSite (fst p) (snd p)) _).
  by intros [].
Defined.

(** What [json.Unmarshal(body, &cluster)] leaves in a zero [Cluster], and
    whether it returns an error.  On a syntax error the cluster stays zero;
    on a value of the wrong type the other fields are still filled. *)
Record Unmarshalled := mkUnmarshalled {
  json_Location : string;
  json_Hyphae : list string;
  json_Spores : list string;
  json_error : bool
}.

(** An [*http.Response]: its status and what reading and decoding its body
    gives; [None] is an error of [ioutil.ReadAll]. *)
Record Response := mkResponse {
  StatusCode : Z;
  ReadAll : option Unmarshalled
}.

Class Web := {
  (** [myClient.Get]; [None] when it returns an error *)
  client_Get : string -> option Response;
  (** the element [diff.Pop()] takes in the n-th iteration, as an index into
      the elements of the set: any choice is one such function *)
  Pop_choice : nat -> nat
}.

Inductive Outcome (A : Type) :=
  | OutOfFuel            (* the loop is still running *)
  | Fatal                (* log.Fatal or a panic: the process exits *)
  | Done (a : A).
Arguments OutOfFuel {A}.
Arguments Fatal {A}.
Arguments Done {A} a.

(** The variables of the loop of [Precrawl]; [iteration] counts the passes. *)
Record Discovery := mkDiscovery {
  res : Response;
  depthCounter : Z;
  checked : gset Hypha;
  allHyphae : gset Hypha;
  allSites : gset Site;
  iteration : nat
}.

Inductive Step :=
  | Abort                          (* log.Fatal *)
  | Precrawled (st : Discovery)    (* precrawled = true *)
  | Continue (st : Discovery).     (* next pass *)

Section Precrawl.
Context `{Collaborators} `{Web}.

(** [set.Pop()]: some element of a set that is not empty. *)
Definition Pop (n : nat) (s : gset Hypha) : option Hypha :=
  elements s !! (Pop_choice n mod size s)%nat.

(** Lines 258-266: the cluster enters the three sets. *)
Definition record_cluster (cluster : Cluster) (st : Discovery) : Discovery :=
  let checked := checked st ∪ {[ mkHypha (Location cluster) (Depth cluster) ]} in
  let allHyphae :=
    fold_left (fun s v => s ∪ {[ mkHypha v (wrap64 (Depth cluster + 1)) ]})
              (Hyphae cluster) (allHyphae st) in
  let allSites :=
    fold_left (fun s v => s ∪ {[ mkSite v (Depth cluster) ]})
              (Spores cluster) (allSites st) in
  mkDiscovery (res st) (depthCounter st) checked allHyphae allSites (iteration st).

(** One pass of the loop of lines 245-282. *)
Definition Precrawl_step (st : Discovery) : Step :=
  match ReadAll (res st) with
  | None => Abort
  | Some body =>
      (* the error of json.Unmarshal is not looked at *)
      let cluster :=
        mkCluster (json_Location body) (json_Hyphae body) (json_Spores body)
                  (depthCounter st) in
      let st := record_cluster cluster st in
      let diff := allHyphae st ∖ checked st in
      if bool_decide (size diff = 0%nat) then Precrawled st
      else
        match Pop (iteration st) diff with
        | None => Abort
        | Some d =>
            match client_Get (Hypha_Url d) with
            | None => Abort
            | Some r =>
                Continue (mkDiscovery r (Hypha_Depth d) (checked st) (allHyphae st)
                                      (allSites st) (S (iteration st)))
            end
        end
  end.

Fixpoint Precrawl_loop (fuel : nat) (st : Discovery) : Outcome Discovery :=
  match fuel with
  | O => OutOfFuel
  | S fuel =>
      match Precrawl_step st with
      | Abort => Fatal
      | Precrawled st => Done st
      | Continue st => Precrawl_loop fuel st
      end
  end.

(** Lines 224-292: the walk, up to the test of the last status. *)
Definition Precrawl_discover (config : Config) (fuel : nat) : Outcome Discovery :=
  if negb (SetupDefaultProxy config) then Fatal
  else
    match client_Get (General_URL config) with
    | None => Fatal
    | Some r =>
        match Precrawl_loop fuel (mkDiscovery r 0 ∅ ∅ ∅ 0) with
        | Done st => if bool_decide (StatusCode (res st) <> 200) then Fatal else Done st
        | other => other
        end
    end.

(** The body of the loop of lines 295-308 for one site: the lines it prints. *)
Definition emit_site (BANNED : list string) (h : Site) : list (string * Z) :=
  let link := getLink (Site_Url h) in
  match url_Parse link with
  | None => []
  | Some u =>
      let domain := Hostname u in
      if find BANNED domain then [] else [(link, Site_Depth h)]
  end.

(** [Precrawl]: the pairs printed.  [allSites.ToSlice()] gives the sites in
    no particular order; [elements] is one such order. *)
Definition Precrawl (config : Config) (fuel : nat) : Outcome (list (string * Z)) :=
  match Precrawl_discover config fuel with
  | OutOfFuel => OutOfFuel
  | Fatal => Fatal
  | Done st =>
      Done (flat_map (emit_site (Crawler_BannedDomains config)) (elements (allSites st)))
  end.

(** The state at the start of pass [n], if the loop gets there. *)
Fixpoint Precrawl_pass (n : nat) (st : Discovery) : option Discovery :=
  match n with
  | O => Some st
  | S n =>
      match Precrawl_step st with
      | Continue st => Precrawl_pass n st
      | _ => None
      end
  end.

End Precrawl.

(** ** Reference collaborators

    Instances for examples: URLs of the form [scheme://host/path] without
    port, user or escapes, on which [url.Parse] gives the host and the path
    as they stand. *)

Definition drop_scheme (s : bytes) : bytes :=
  if GoStrings.has_prefix s (to_bytes "https://") then drop 8 s
  else if GoStrings.has_prefix s (to_bytes "http://") then drop 7 s
  else s.

Definition plain_Parse (s : string) : option URL :=
  let rest := drop_scheme (to_bytes s) in
  let host := GoStrings.split_first rest (to_bytes "/") in
  Some (mkURL (of_bytes host) (of_bytes (drop (length host) rest)) s).

Definition ascii_lower (a : ascii) : ascii :=
  let n := nat_of_ascii a in
  if (65 <=? n)%nat && (n <=? 90)%nat then ascii_of_nat (n + 32) else a.

(** Modelled from the spec: [util.Contains] of [lieu/util], which is not
    among the sources; the specification describes it as an exact string
    match against the list. *)
Definition exact_Contains (list : list string) (query : string) : bool :=
  bool_decide (query ∈ list).

Definition plain : Collaborators :=
  {| url_Parse := plain_Parse;
     strings_ToLower := fun s => of_bytes (map ascii_lower (to_bytes s));
     util_Contains := exact_Contains |}.

(** ** Vocabulary of the statements about links and the crawl *)

(** The normal form: what [getLink] does after its two cuts. *)
Definition norm (x : bytes) : bytes := GoStrings.trim_suffix (GoStrings.trim_space x) ["/"%char].

(** The lines a callback adds to standard output. *)
Definition emitted (st st' : CrawlState) : list Line :=
  drop (length (stdout st)) (stdout st').

(** The URLs a callback gives to [q.AddURL]. *)
Definition enqueued (st st' : CrawlState) : list string :=
  drop (length (queue st)) (queue st').

Section CrawlVocabulary.
Context `{Collaborators}.

(** The callback reaches its classification: the status is between 100 and
    400, the normalized link has no banned suffix and its absolute form
    [link] parses to [u]. *)
Definition classified (pol : Policy) (e : HTMLElement) (link : string) (u : URL) : Prop :=
  100 < Response_StatusCode e < 400 /\
  findSuffix (SUFFIXES pol) (getLink (Attr e "href")) = false /\
  Request_AbsoluteURL e (getLink (Attr e "href")) = link /\
  url_Parse link = Some u.

(** The logging part of [OnLink], lines 382-389. *)
Definition log_link (pol : Policy) (e : HTMLElement) (link : string) (u : URL)
  (st : CrawlState) : CrawlState :=
  if negb (util_Contains (boringWords pol) link)
     && negb (util_Contains (boringDomains pol) link)
  then
    if negb (find (domains pol) (Hostname u))
    then report "non-webring-link" link e st
    else if bool_decide (Hostname u <> Hostname (Request_URL e))
            && bool_decide (Hostname u <> initialDomain pol)
            && bool_decide (Hostname (Request_URL e) <> initialDomain pol)
    then report "webring-link" link e st
    else st
  else st.

(** [st'] comes from [st] by printing lines about the page of [e], each with
    the depth the map gives to that page, and by queueing; the map is the
    same. *)
Definition tagged (e : HTMLElement) (st st' : CrawlState) : Prop :=
  linkDepths st' = linkDepths st /\
  exists new, stdout st' = stdout st ++ new /\
    Forall (fun l => page l = URL_String (Request_URL e) /\
                     page_depth l = default 0 (linkDepths st !! page l)) new.

End CrawlVocabulary.

(** ** Example policies and elements *)

Definition shared_policy (ps : list string) : Policy :=
  mkPolicy [".pdf"] ["shared.example"] ps "https://root.example" [] [] ["p"] [].

Definition link_element (page_url : URL) (href : string) (code : Z) : HTMLElement :=
  mkElement (fun k => if bool_decide (k = "href") then href else "")
            "" (fun _ => []) (fun _ => []) page_url (fun l => l) code.

Definition alice_home : URL :=
  mkURL "shared.example" "/~alice" "https://shared.example/~alice".


(** ** Vocabulary of the statements about discovery *)

(** A hypha of the graph over [urls]: its URL is one of them and its depth
    is an [int]. *)
Definition known (urls : list string) (h : Hypha) : Prop :=
  Hypha_Url h ∈ urls /\ int_range (Hypha_Depth h).

(** All hyphae over [urls]. *)
Definition universe (urls : list string) : list Hypha :=
  (fun p => mkHypha (fst p) (snd p)) <$> list_prod urls (seqZ (- 2 ^ 63) (2 ^ 64)).

(** The start of the walk: the response to the first request. *)
Definition walk_start (r : Response) : Discovery := mkDiscovery r 0 ∅ ∅ ∅ 0.

Section DiscoveryVocabulary.
Context `{Collaborators} `{Web}.

(** Every document of the graph names itself and points into the graph. *)
Definition closed_graph (urls : list string) : Prop :=
  forall u r b,
    u ∈ urls -> client_Get u = Some r -> ReadAll r = Some b ->
    json_Location b = u /\ forall v, v ∈ json_Hyphae b -> v ∈ urls.

(** What holds at the start of every pass: the response at hand answers a
    request for a hypha that is not checked yet. *)
Definition walk_inv (urls : list string) (st : Discovery) : Prop :=
  (exists u, client_Get u = Some (res st) /\
             known urls (mkHypha u (depthCounter st)) /\
             mkHypha u (depthCounter st) ∉ checked st) /\
  (forall h, h ∈ checked st -> known urls h) /\
  (forall h, h ∈ allHyphae st -> known urls h).

(** The site is printed: its normalized URL parses and its domain is not
    banned. *)
Definition listed (BANNED : list string) (h : Site) : bool :=
  match url_Parse (getLink (Site_Url h)) with
  | Some u => negb (find BANNED (Hostname u))
  | None => false
  end.

End DiscoveryVocabulary.

(** ** Example graphs *)

Definition document (status : Z) (location : string) (hyphae spores : list string)
  : Response :=
  mkResponse status (Some (mkUnmarshalled location hyphae spores false)).

(** The two documents of the example of the specification. *)
Definition two_documents : Web :=
  {| client_Get := fun u =>
       if bool_decide (u = "https://a")
       then Some (document 200 "https://a" ["https://a/2"] ["https://b"])
       else if bool_decide (u = "https://a/2")
       then Some (document 200 "https://a/2" [] ["https://c"])
       else None;
     Pop_choice := fun _ => 0%nat |}.

(** One document with a hypha of the wrong type: [json.Unmarshal] fills the
    other fields and returns an error. *)
Definition half_decoded : Web :=
  {| client_Get := fun u =>
       if bool_decide (u = "https://a")
       then Some (mkResponse 200
                    (Some (mkUnmarshalled "https://a" [] ["https://b"] true)))
       else None;
     Pop_choice := fun _ => 0%nat |}.

Definition discovery_config (BANNED : list string) : Config :=
  mkConfig "https://a" "" [] BANNED [] [] [] [] [].

(** The example of the specification with a link back: https://a/2 lists
    https://a among its hyphae.  The walk alternates between the two
    documents; [cycle_url i], [cycle_spore i] and [cycle_body i] are the URL
    requested for pass [i], the spore and the body of its document. *)
Definition two_cycle (choice : nat -> nat) : Web :=
  {| client_Get := fun u =>
       if bool_decide (u = "https://a")
       then Some (document 200 "https://a" ["https://a/2"] ["https://b"])
       else if bool_decide (u = "https://a/2")
       then Some (document 200 "https://a/2" ["https://a"] ["https://c"])
       else None;
     Pop_choice := choice |}.

Definition cycle_url (i : Z) : string :=
  if Z.even i then "https://a" else "https://a/2".

Definition cycle_spore (i : Z) : string :=
  if Z.even i then "https://b" else "https://c".

Definition cycle_body (i : Z) : Unmarshalled :=
  mkUnmarshalled (cycle_url i) [cycle_url (i + 1)] [cycle_spore i] false.

(** The state of the walk of [two_cycle] at the start of pass [k]. *)
Definition two_cycle_at (k : Z) (st : Discovery) : Prop :=
  res st = mkResponse 200 (Some (cycle_body k)) /\
  depthCounter st = wrap64 k /\
  (forall h, h ∈ checked st <->
             exists i, 0 <= i < k /\ h = mkHypha (cycle_url i) (wrap64 i)) /\
  (forall h, h ∈ allHyphae st <->
             exists i, 1 <= i <= k /\ h = mkHypha (cycle_url i) (wrap64 i)) /\
  (forall s, s ∈ allSites st <->
             exists i, 0 <= i < k /\ s = mkSite (cycle_spore i) (wrap64 i)) /\
  size (checked st) = Z.to_nat k.

(** One document that names itself among its hyphae. *)
Definition self_loop (choice : nat -> nat) : Web :=
  {| client_Get := fun _ => Some (document 200 "https://a" ["https://a"] []);
     Pop_choice := choice |}.

(** The state of the walk of [self_loop] at the start of pass [k]. *)
Definition self_loop_at (k : Z) (st : Discovery) : Prop :=
  res st = document 200 "https://a" ["https://a"] [] /\
  depthCounter st = wrap64 k /\
  (forall h, h ∈ checked st <-> exists i, 0 <= i < k /\ h = mkHypha "https://a" (wrap64 i)) /\
  (forall h, h ∈ allHyphae st <-> exists i, 1 <= i <= k /\ h = mkHypha "https://a" (wrap64 i)).

(** The same response, had [json.Unmarshal] returned no error. *)
Definition clear_error (r : Response) : Response :=
  mkResponse (StatusCode r)
    (option_map (fun b => mkUnmarshalled (json_Location b) (json_Hyphae b)
                                         (json_Spores b) false)
                (ReadAll r)).

Definition without_errors (W : Web) : Web :=
  {| client_Get := fun u => option_map clear_error (@client_Get W u);
     Pop_choice := @Pop_choice W |}.

Definition clear_state (st : Discovery) : Discovery :=
  mkDiscovery (clear_error (res st)) (depthCounter st) (checked st)
              (allHyphae st) (allSites st) (iteration st).

(** ** Vocabulary of the further statements *)

(** [s] starts with a white space rune. *)
Definition StartsWithSpace (s : string) : bool :=
  existsb (GoStrings.has_prefix (to_bytes s)) GoStrings.unicode_space.

Section PreviewVocabulary.
Context `{Collaborators}.

(** The test of lines 176-177 on a cleaned paragraph. *)
Definition preview_ok (heuristics : list string) (paragraph : string) : bool :=
  (GoStrings.len paragraph <? 1500) && (20 <? GoStrings.len paragraph)
  && negb (util_Contains heuristics (strings_ToLower paragraph)).

(** The paragraphs that [QueryLoop] looks at, in its order: for each query
    the first four elements. *)
Definition preview_candidates (queries : list string) (e : HTMLElement) : list string :=
  flat_map (fun q => map cleanText (take 4 (DOM_Find e q))) queries.

End PreviewVocabulary.

(** A page that came with status 404: its head, a paragraph, a heading and
    a link. *)
Definition error_page : HTMLElement :=
  mkElement (fun k => if bool_decide (k = "href") then "https://shared.example/~alice/notes"
                      else if bool_decide (k = "content") then "page not found"
                      else if bool_decide (k = "lang") then "en"
                      else "")
            "Not Found"
            (fun sel => if bool_decide (sel = "p")
                        then ["The page you asked for is not here."] else [])
            (fun sel => if bool_decide (sel = "h1") then ["404"] else [])
            alice_home (fun l => l) 404.

(** The same web with every status replaced by 200. *)
Definition status_ok (r : Response) : Response := mkResponse 200 (ReadAll r).

Definition all_ok (W : Web) : Web :=
  {| client_Get := fun u => option_map status_ok (@client_Get W u);
     Pop_choice := @Pop_choice W |}.

Definition ok_state (st : Discovery) : Discovery :=
  mkDiscovery (status_ok (res st)) (depthCounter st) (checked st)
              (allHyphae st) (allSites st) (iteration st).

(** The walk on a document at [u] whose only hypha is [u] itself, at the
    start of pass [k]. *)
Definition self_listing_at (u : string) (r : Response) (k : Z) (st : Discovery) : Prop :=
  res st = r /\
  depthCounter st = wrap64 k /\
  (forall h, h ∈ checked st <-> exists i, 0 <= i < k /\ h = mkHypha u (wrap64 i)) /\
  (forall h, h ∈ allHyphae st <-> exists i, 1 <= i <= k /\ h = mkHypha u (wrap64 i)).

(** Reference instance of [Schemes] for [plain_Parse]: the scheme is what
    stands before "://". *)
Definition plain_Scheme (u : URL) : string :=
  if GoStrings.Contains (URL_String u) "://"
  then GoStrings.SplitFirst (URL_String u) "://" else "".

Definition plain_schemes : Schemes :=
  {| url_Scheme := plain_Scheme;
     set_Scheme_https := fun u =>
       mkURL (Hostname u) (Path u) (String.append "https://" (URL_String u)) |}.

(** [plain_Parse] extended to mailto links, which have no host. *)
Definition mail_Parse (s : string) : option URL :=
  if GoStrings.HasPrefix s "mailto:" then Some (mkURL "" "" s) else plain_Parse s.

(** The depths in the three sets belong together: a site has the depth of a
    checked hypha, a hypha is one deeper than a checked one. *)
Definition depths_linked (st : Discovery) : Prop :=
  (forall s, s ∈ allSites st ->
     exists c, c ∈ checked st /\ Site_Depth s = Hypha_Depth c) /\
  (forall h, h ∈ allHyphae st ->
     exists c, c ∈ checked st /\ Hypha_Depth h = wrap64 (Hypha_Depth c + 1)).

(** The three sets of [st] are within those of [st']. *)
Definition sets_within (st st' : Discovery) : Prop :=
  checked st ⊆ checked st' /\ allHyphae st ⊆ allHyphae st' /\ allSites st ⊆ allSites st'.

Section FatalVocabulary.
Context `{Web}.

(** The pass that starts from [st] fails: the body at hand cannot be read,
    or the request for the hypha that [Pop] takes returns an error. *)
Definition pass_fails (st : Discovery) : Prop :=
  ReadAll (res st) = None \/
  exists body d,
    ReadAll (res st) = Some body /\
    (let st' := record_cluster (mkCluster (json_Location body) (json_Hyphae body)
                                          (json_Spores body) (depthCounter st)) st in
     Pop (iteration st') (allHyphae st' ∖ checked st') = Some d) /\
    client_Get (Hypha_Url d) = None.

End FatalVocabulary.

(** The bounds, in bytes, that the callbacks put on the payload of a record
    of kind [k] before they print it; [None] when there is none. *)
Definition payload_limits (k : string) : option (Z * Z) :=
  if String.eqb k "desc" || String.eqb k "og-desc" || String.eqb k "para-just-p"
  then Some (0, 1500)
  else if String.eqb k "lang" then Some (0, 100)
  else if String.eqb k "para" then Some (20, 1500)
  else if String.eqb k "h1" || String.eqb k "h2" || String.eqb k "h3"
  then Some (-1, 500)
  else None.

Definition well_sized (l : Line) : Prop :=
  match payload_limits (kind l) with
  | Some (lo, hi) => lo < GoStrings.len (payload l) < hi
  | None => True
  end.

(** [st'] comes from [st] by printing records that are all well sized. *)
Definition sized (st st' : CrawlState) : Prop :=
  exists new, stdout st' = stdout st ++ new /\ Forall well_sized new.
(** ** Properties of the string functions *)

Example getLink_fragment : getLink "https://x.com/a/#frag" = "https://x.com/a".
Proof. vm_compute. reflexivity. Qed.

Example getLink_query : getLink "  https://x.com/a?b=1#c " = "https://x.com/a".
Proof. vm_compute. reflexivity. Qed.

Example getLink_nbsp :
  getLink (of_bytes (byte_seq [194; 160; 97; 226; 128; 168]%nat)) = "a".
Proof. vm_compute. reflexivity. Qed.

Section TrimFront.
Import GoStrings.
Variable pats : list bytes.
Hypothesis pats_nonempty : forall p, p ∈ pats -> p <> [].

Lemma leading_Some s p : leading pats s = Some p -> p ∈ pats /\ p `prefix_of` s.
Proof.
  unfold leading. intros H. apply find_some in H as [Hin Hp].
  split; [by apply list_elem_of_In|]. by apply bool_decide_eq_true in Hp.
Qed.

Lemma leading_None s : leading pats s = None <-> forall p, p ∈ pats -> ~ p `prefix_of` s.
Proof.
  unfold leading. split.
  - intros H p Hin Hp.
    pose proof (find_none _ _ H p (proj1 (list_elem_of_In _ _) Hin)) as Hf.
    unfold has_prefix in Hf. by rewrite bool_decide_eq_true_2 in Hf.
  - intros H. destruct (List.find _ _) as [p|] eqn:E; [|done].
    apply find_some in E as [Hin Hp]. apply bool_decide_eq_true in Hp.
    destruct (H p); [by apply list_elem_of_In|done].
Qed.

Lemma trim_front_suffix k s : trim_front pats k s `suffix_of` s.
Proof.
  revert k. induction s as [|a s IH]; intros k; simpl; [done|].
  destruct k as [|k]; [destruct (leading pats (a :: s))|]; try done;
    by apply suffix_cons_r.
Qed.

Lemma trim_front_no_lead k s p : p ∈ pats -> ~ p `prefix_of` trim_front pats k s.
Proof.
  intros Hin. revert k. induction s as [|a s IH]; intros k; simpl.
  - intros ->%prefix_nil_inv. by apply (pats_nonempty []).
  - destruct k as [|k]; [|done].
    destruct (leading pats (a :: s)) eqn:E; [done|].
    by apply (proj1 (leading_None _) E).
Qed.

Lemma trim_front_id s : (forall p, p ∈ pats -> ~ p `prefix_of` s) -> trim_front pats 0 s = s.
Proof.
  intros H. destruct s as [|a s]; simpl; [done|].
  by rewrite (proj2 (leading_None (a :: s)) H).
Qed.

Lemma trim_front_shorter s p :
  p ∈ pats -> p `prefix_of` s -> (length (trim_front pats 0 s) < length s)%nat.
Proof.
  intros Hin Hp. destruct s as [|a s]; simpl.
  - apply prefix_nil_inv in Hp. by destruct (pats_nonempty p).
  - destruct (leading pats (a :: s)) eqn:E.
    + pose proof (suffix_length _ _ (trim_front_suffix (Nat.pred (length l)) s)). lia.
    + by destruct (proj1 (leading_None _) E p).
Qed.
End TrimFront.

Section StringFacts.
Import GoStrings.

Lemma to_of_bytes l : to_bytes (of_bytes l) = l.
Proof. apply list_ascii_of_string_of_list_ascii. Qed.

Lemma of_to_bytes s : of_bytes (to_bytes s) = s.
Proof. apply string_of_list_ascii_of_string. Qed.

Lemma to_bytes_inj s1 s2 : to_bytes s1 = to_bytes s2 -> s1 = s2.
Proof. intros H. by rewrite <- (of_to_bytes s1), H, of_to_bytes. Qed.

Lemma unicode_space_nonempty p : p ∈ unicode_space -> p <> [].
Proof.
  intros Hin ->. revert Hin.
  apply (bool_decide_unpack (~ [] ∈ unicode_space)). vm_compute. exact I.
Qed.

Lemma rev_space_nonempty p : p ∈ map reverse unicode_space -> p <> [].
Proof.
  intros (q & -> & Hq)%list_elem_of_fmap Hnil.
  apply (unicode_space_nonempty q Hq).
  by rewrite <- (reverse_involutive q), Hnil.
Qed.

Lemma contains_byte s c : contains s [c] = true <-> c ∈ s.
Proof.
  induction s as [|a s IH]; cbn [contains].
  - unfold has_prefix. rewrite bool_decide_eq_false_2.
    + split; [done|]. by intros ?%elem_of_nil.
    + by intros ?%prefix_nil_inv.
  - rewrite orb_true_iff, IH, elem_of_cons. unfold has_prefix.
    rewrite bool_decide_eq_true. split.
    + intros [H|H]; [left|by right]. by apply prefix_cons_inv_1 in H.
    + intros [->|H]; [left|by right]. apply prefix_cons, prefix_nil.
Qed.

Lemma split_first_prefix s sep : split_first s sep `prefix_of` s.
Proof.
  induction s as [|a s IH]; cbn [split_first]; [done|].
  destruct (has_prefix _ _); [apply prefix_nil|by apply prefix_cons].
Qed.

Lemma split_first_byte s c : c ∉ split_first s [c].
Proof.
  induction s as [|a s IH]; cbn [split_first]; [by intros ?%elem_of_nil|].
  unfold has_prefix. case_bool_decide as Hp; [by intros ?%elem_of_nil|].
  intros [->|H]%elem_of_cons; [|done].
  apply Hp, prefix_cons, prefix_nil.
Qed.

Lemma elem_of_prefix (c : ascii) l1 l2 : l1 `prefix_of` l2 -> c ∈ l1 -> c ∈ l2.
Proof. intros [k ->] H. apply elem_of_app. by left. Qed.

Lemma elem_of_suffix (c : ascii) l1 l2 : l1 `suffix_of` l2 -> c ∈ l1 -> c ∈ l2.
Proof. intros [k ->] H. apply elem_of_app. by right. Qed.

Lemma trim_left_space_suffix s : trim_left_space s `suffix_of` s.
Proof. apply trim_front_suffix. Qed.

Lemma trim_right_space_prefix s : trim_right_space s `prefix_of` s.
Proof.
  unfold trim_right_space. apply prefix_suffix_reverse.
  rewrite reverse_involutive. apply trim_front_suffix.
Qed.

Lemma trim_suffix_prefix s suf : trim_suffix s suf `prefix_of` s.
Proof. unfold trim_suffix. destruct (has_suffix _ _); [apply prefix_take|done]. Qed.

Lemma norm_elem (c : ascii) x : c ∈ norm x -> c ∈ x.
Proof.
  unfold norm, trim_space. intros H.
  eapply elem_of_suffix; [apply trim_left_space_suffix|].
  eapply elem_of_prefix; [apply trim_right_space_prefix|].
  eapply elem_of_prefix; [apply trim_suffix_prefix|done].
Qed.

Lemma norm_no_leading_space x p : p ∈ unicode_space -> ~ p `prefix_of` norm x.
Proof.
  intros Hin Hp.
  apply (trim_front_no_lead unicode_space unicode_space_nonempty 0 x p Hin).
  etrans; [exact Hp|]. unfold norm, trim_space.
  etrans; [apply trim_suffix_prefix|apply trim_right_space_prefix].
Qed.

Lemma ends_with_space_spec (l : bytes) :
  existsb (has_suffix l) unicode_space = false <->
  forall p, p ∈ map reverse unicode_space -> ~ p `prefix_of` reverse l.
Proof.
  rewrite <- not_true_iff_false, existsb_exists. split.
  - intros H p (q & -> & Hq)%list_elem_of_fmap Hp. apply H. exists q.
    split; [by apply list_elem_of_In|].
    apply bool_decide_eq_true. by apply suffix_prefix_reverse.
  - intros H (q & Hq%list_elem_of_In & Hs%bool_decide_eq_true).
    apply (H (reverse q)); [by apply list_elem_of_fmap_2|].
    by apply suffix_prefix_reverse.
Qed.

Lemma trim_right_space_id l :
  trim_right_space l = l <-> existsb (has_suffix l) unicode_space = false.
Proof.
  rewrite ends_with_space_spec. unfold trim_right_space. split.
  - intros H p Hin Hp.
    apply (trim_front_no_lead _ rev_space_nonempty 0 (reverse l) p Hin).
    by rewrite <- (reverse_involutive (trim_front _ _ _)), H.
  - intros H. rewrite trim_front_id by done. apply reverse_involutive.
Qed.

Lemma trim_suffix_id l suf :
  suf <> [] -> (trim_suffix l suf = l <-> has_suffix l suf = false).
Proof.
  intros Hsuf. unfold trim_suffix. destruct (has_suffix l suf) eqn:E; [|done].
  split; [|done]. intros H. exfalso.
  apply bool_decide_eq_true in E. apply suffix_length in E.
  assert (length suf <> 0%nat) by (by destruct suf).
  apply (f_equal length) in H. rewrite length_take in H. lia.
Qed.

(** On a normal form the second pass is the identity exactly when the
    form ends neither in a slash nor in a white space rune. *)
Lemma norm_norm x :
  norm (norm x) = norm x <->
  has_suffix (norm x) ["/"%char] = false /\
  existsb (has_suffix (norm x)) unicode_space = false.
Proof.
  set (r := norm x).
  assert (Hl : trim_left_space r = r).
  { apply trim_front_id. intros p Hin. by apply norm_no_leading_space. }
  unfold norm at 1. unfold trim_space. rewrite Hl.
  rewrite <- trim_right_space_id. split.
  - intros H.
    assert (Hr : trim_right_space r = r).
    { pose proof (trim_right_space_prefix r) as Hp.
      pose proof (trim_suffix_prefix (trim_right_space r) ["/"%char]) as Hq.
      apply prefix_length in Hq. rewrite H in Hq.
      by apply prefix_length_eq. }
    split; [|done]. rewrite Hr in H. by apply trim_suffix_id in H.
  - intros [Hs Hr]. rewrite Hr. by apply trim_suffix_id.
Qed.

Lemma Contains_byte_false s c :
  c ∉ to_bytes s -> Contains s (String c EmptyString) = false.
Proof.
  intros H. unfold Contains. simpl. apply not_true_iff_false.
  by rewrite contains_byte.
Qed.

(** [getLink] is [norm] applied to its input cut at [#] and then at [?];
    the cut string holds neither byte. *)
Lemma getLink_norm target :
  exists x, to_bytes (getLink target) = norm x /\
            ("#"%char ∉ x) /\ ("?"%char ∉ x).
Proof.
  unfold getLink.
  set (t1 := if Contains target "#" then _ else _).
  set (t2 := if Contains t1 "?" then _ else _).
  exists (to_bytes t2). split.
  { unfold TrimSuffix, TrimSpace. by rewrite !to_of_bytes. }
  assert (H1 : "#"%char ∉ to_bytes t1).
  { subst t1. destruct (Contains target "#") eqn:E.
    - unfold SplitFirst. rewrite to_of_bytes. apply split_first_byte.
    - intros H. apply (contains_byte _ "#"%char) in H.
      unfold Contains in E. simpl in E. congruence. }
  subst t2. destruct (Contains t1 "?") eqn:E.
  - unfold SplitFirst. rewrite to_of_bytes. split.
    + intros H. apply H1. eapply elem_of_prefix; [apply split_first_prefix|done].
    + apply split_first_byte.
  - split; [done|]. intros H. apply (contains_byte _ "?"%char) in H.
    unfold Contains in E. simpl in E. congruence.
Qed.

Lemma getLink_getLink_bytes target x :
  to_bytes (getLink target) = norm x -> "#"%char ∉ x -> "?"%char ∉ x ->
  to_bytes (getLink (getLink target)) = norm (norm x).
Proof.
  intros Hx H1 H2. unfold getLink at 1.
  rewrite (Contains_byte_false (getLink target) "#"%char).
  2:{ rewrite Hx. intros H. by apply norm_elem in H. }
  rewrite (Contains_byte_false (getLink target) "?"%char).
  2:{ rewrite Hx. intros H. by apply norm_elem in H. }
  unfold TrimSuffix, TrimSpace. by rewrite !to_of_bytes, Hx.
Qed.
End StringFacts.

(** ** The link normalizer and idempotence *)

(** C7, as the spec states it, fails: a second pass strips a second slash. *)
Lemma getLink_not_idempotent :
  getLink (getLink "https://x.com/a//") <> getLink "https://x.com/a//".
Proof. vm_compute. discriminate. Qed.

(** C7 (amended): [getLink] cuts at the first [#], then at the first [?],
    trims white space and strips one trailing slash; a second pass changes
    nothing exactly when the result of the first ends neither in a slash nor
    in a white space rune. *)
Theorem getLink_idempotent_iff (u : string) :
  getLink (getLink u) = getLink u <->
  GoStrings.HasSuffix (getLink u) "/" = false /\
  GoStrings.EndsWithSpace (getLink u) = false.
Proof.
  destruct (getLink_norm u) as (x & Hx & H1 & H2).
  pose proof (getLink_getLink_bytes u x Hx H1 H2) as Hxx.
  unfold GoStrings.HasSuffix, GoStrings.EndsWithSpace. simpl (to_bytes "/").
  rewrite Hx, <- norm_norm, <- Hxx, <- Hx.
  split; [by intros ->|apply to_bytes_inj].
Qed.

(** ** The site registry *)

Section Registry.
Context `{Collaborators}.

(** The second test of line 113 holds for every path: no string equals both
    "/" and "index.html". *)
Lemma is_pathsite_spec (u : URL) : is_pathsite u = true <-> Path u <> "".
Proof.
  unfold is_pathsite, GoStrings.len.
  assert (Hor : bool_decide (Path u <> "/") || bool_decide (Path u <> "index.html") = true).
  { destruct (decide (Path u = "/")) as [->|Hne]; [done|].
    by rewrite (bool_decide_eq_true_2 _ Hne). }
  rewrite Hor, andb_true_r, Z.ltb_lt.
  destruct (Path u); simpl; [|split; [done|lia]].
  split; [lia|done].
Qed.

Lemma getDomains_step (links : list string) (l : string) :
  getDomains (links ++ [l]) =
  match url_Parse l with
  | None => getDomains links
  | Some u =>
      ((getDomains links).1 ++ [Hostname u],
       if is_pathsite u then (getDomains links).2 ++ [l] else (getDomains links).2)
  end.
Proof.
  unfold getDomains. rewrite fold_left_app. simpl.
  destruct (fold_left _ links _) as [ds ps]. by destruct (url_Parse l).
Qed.

(** The pathsites are the seeds that parse with a path that is not empty. *)
Lemma getDomains_pathsites (links : list string) (l : string) :
  l ∈ (getDomains links).2 <->
  l ∈ links /\ exists u, url_Parse l = Some u /\ Path u <> "".
Proof.
  induction links as [|x links IH] using rev_ind.
  - split; [by intros ?%elem_of_nil|by intros [?%elem_of_nil _]].
  - assert (Hold : l ∈ links /\ (exists u, url_Parse l = Some u /\ Path u <> "")
                   -> l ∈ links ++ [x] /\ exists u, url_Parse l = Some u /\ Path u <> "").
    { intros [Hin Hu]. split; [|done]. apply elem_of_app. by left. }
    rewrite getDomains_step.
    destruct (url_Parse x) as [u|] eqn:E; [destruct (is_pathsite u) eqn:Ep|]; simpl.
    + apply is_pathsite_spec in Ep. rewrite elem_of_app, list_elem_of_singleton, IH.
      split.
      * intros [Hl| ->]; [by apply Hold|]. split; [|by exists u].
        apply elem_of_app. right. by apply list_elem_of_singleton.
      * intros [[Hin| ->%list_elem_of_singleton]%elem_of_app Hu]; [by left|by right].
    + apply not_true_iff_false in Ep. rewrite is_pathsite_spec in Ep.
      rewrite IH. split; [done|].
      intros [[Hin| ->%list_elem_of_singleton]%elem_of_app (u' & Hu' & Hp)]; [by eauto|].
      rewrite E in Hu'. by simplify_eq.
    + rewrite IH. split; [done|].
      intros [[Hin| ->%list_elem_of_singleton]%elem_of_app (u' & Hu' & Hp)]; [by eauto|].
      congruence.
Qed.

(** The pathsites come in the order of the seed list. *)
Lemma getDomains_pathsites_order (links : list string) :
  (getDomains links).2
  = List.filter (fun l => match url_Parse l with
                          | Some u => is_pathsite u
                          | None => false
                          end) links.
Proof.
  induction links as [|x links IH] using rev_ind; [done|].
  rewrite getDomains_step, List.filter_app. simpl.
  destruct (url_Parse x) as [u|]; simpl.
  - destruct (is_pathsite u); simpl; by rewrite IH, ?app_nil_r.
  - by rewrite IH, app_nil_r.
Qed.

End Registry.

(** C4 (the code does otherwise): a seed that parses with the path "/" is
    recorded as a PathSite, the test [u.Path != "/" || u.Path != "index.html"]
    of line 113 being true of every path. *)
Theorem getDomains_root_path_is_pathsite `{Collaborators} (l : string) (u : URL) :
  url_Parse l = Some u -> Path u = "/" ->
  getDomains [l] = ([Hostname u], [l]).
Proof.
  intros Hp Hpath. unfold getDomains. simpl. rewrite Hp.
  replace (is_pathsite u) with true; [done|].
  symmetry. apply is_pathsite_spec. by rewrite Hpath.
Qed.

Lemma getDomains_root_path_is_pathsite_witness :
  @url_Parse plain "https://example.com/"
    = Some (mkURL "example.com" "/" "https://example.com/") /\
  @getDomains plain ["https://example.com/"]
    = (["example.com"], ["https://example.com/"]).
Proof.
  split; [reflexivity|].
  apply (@getDomains_root_path_is_pathsite plain "https://example.com/"
           (mkURL "example.com" "/" "https://example.com/")); reflexivity.
Defined.

(** ** The callback on links *)

Section LinkCallback.
Context `{Collaborators}.

Lemma emitted_refl st : emitted st st = [].
Proof. unfold emitted. apply drop_all. Qed.

Lemma enqueued_refl st : enqueued st st = [].
Proof. unfold enqueued. apply drop_all. Qed.

Lemma emitted_report k text e st :
  emitted st (report k text e st)
  = [mkLine k text (URL_String (Request_URL e)) (depth_of st (URL_String (Request_URL e)))].
Proof. unfold emitted, report, Println. simpl. by rewrite drop_app_length. Qed.

Lemma enqueued_AddURL u st : enqueued st (AddURL u st) = [u].
Proof. unfold enqueued, AddURL. simpl. by rewrite drop_app_length. Qed.

Lemma log_link_queue pol e link u st : queue (log_link pol e link u st) = queue st.
Proof.
  unfold log_link.
  repeat match goal with |- context [if ?b then _ else _] => destruct b end; done.
Qed.

Lemma OnLink_classified pol e link u st :
  classified pol e link u ->
  OnLink pol e st =
  let st' := log_link pol e link u st in
  let pathsite := pathsite_for (pathsites pol) (Hostname u) in
  if bool_decide (pathsite <> "")
  then if GoStrings.HasPrefix link pathsite then AddURL link st' else st'
  else AddURL link st'.
Proof.
  intros ((Hlo & Hhi) & Hsuf & Habs & Hparse). unfold OnLink.
  replace (400 <=? Response_StatusCode e) with false by (symmetry; apply Z.leb_gt; lia).
  replace (Response_StatusCode e <=? 100) with false by (symmetry; apply Z.leb_gt; lia).
  simpl. rewrite Hsuf, Habs, Hparse. reflexivity.
Qed.

Lemma OnLink_enqueued pol e link u st :
  classified pol e link u ->
  enqueued st (OnLink pol e st) =
  let pathsite := pathsite_for (pathsites pol) (Hostname u) in
  if bool_decide (pathsite <> "")
  then if GoStrings.HasPrefix link pathsite then [link] else []
  else [link].
Proof.
  intros Hc. rewrite (OnLink_classified _ _ _ _ _ Hc). cbv zeta.
  assert (Hq : forall st', queue st' = queue st ->
            enqueued st (AddURL link st') = [link] /\ enqueued st st' = []).
  { intros st' Hq. unfold enqueued, AddURL. simpl.
    rewrite Hq, drop_app_length, drop_all. done. }
  destruct (Hq _ (log_link_queue pol e link u st)) as [Ha Hn].
  repeat case_match; done.
Qed.

Lemma OnLink_emitted pol e link u st :
  classified pol e link u ->
  emitted st (OnLink pol e st) = emitted st (log_link pol e link u st).
Proof.
  intros Hc. rewrite (OnLink_classified _ _ _ _ _ Hc). cbv zeta.
  repeat case_match; done.
Qed.

(** The loop of lines 393-398 stops at the first pathsite that contains the
    domain. *)
Lemma pathsite_for_first before s after dom :
  (forall s', s' ∈ before -> GoStrings.Contains s' dom = false) ->
  GoStrings.Contains s dom = true ->
  pathsite_for (before ++ s :: after) dom = s.
Proof.
  intros Hb Hs. induction before as [|x before IH]; simpl.
  - by rewrite Hs.
  - rewrite (Hb x) by (by left). apply IH. intros s' Hin. apply Hb. by right.
Qed.

Lemma pathsite_for_none ps dom :
  (forall s, s ∈ ps -> GoStrings.Contains s dom = false) ->
  pathsite_for ps dom = "".
Proof.
  intros Hb. induction ps as [|x ps IH]; simpl; [done|].
  rewrite (Hb x) by (by left). apply IH. intros s' Hin. apply Hb. by right.
Qed.

End LinkCallback.

(** C5: a link that reaches the queueing rule, and whose domain occurs in
    a PathSite, is queued exactly when it starts with the URL of the PathSite
    that the rule finds; a link whose domain occurs in no PathSite is queued.
    With the PathSite https://shared.example/~alice the link
    https://shared.example/~bob/page is not queued and
    https://shared.example/~alice/page2 is. *)
Theorem pathsite_restricts_enqueue `{Collaborators}
  (pol : Policy) (e : HTMLElement) (link : string) (u : URL) (st : CrawlState) :
  classified pol e link u ->
  (forall before s after,
      pathsites pol = before ++ s :: after ->
      (forall s', s' ∈ before -> GoStrings.Contains s' (Hostname u) = false) ->
      GoStrings.Contains s (Hostname u) = true -> s <> "" ->
      enqueued st (OnLink pol e st)
      = if GoStrings.HasPrefix link s then [link] else []) /\
  ((forall s, s ∈ pathsites pol -> GoStrings.Contains s (Hostname u) = false) ->
      enqueued st (OnLink pol e st) = [link]) /\
  (pathsites pol = ["https://shared.example/~alice"] ->
   Hostname u = "shared.example" ->
      (link = "https://shared.example/~bob/page" ->
         enqueued st (OnLink pol e st) = []) /\
      (link = "https://shared.example/~alice/page2" ->
         enqueued st (OnLink pol e st) = [link])).
Proof.
  intros Hc. pose proof (OnLink_enqueued pol e link u st Hc) as Hq.
  cbv zeta in Hq. split; [|split].
  - intros before s after Hps Hb Hs Hne.
    rewrite Hps, (pathsite_for_first _ _ _ _ Hb Hs) in Hq.
    by rewrite (bool_decide_eq_true_2 _ Hne) in Hq.
  - intros Hn. by rewrite (pathsite_for_none _ _ Hn) in Hq.
  - intros Hps Hdom. rewrite Hps, Hdom in Hq. split; intros ->; exact Hq.
Qed.

Lemma pathsite_restricts_enqueue_witness :
  let pol := shared_policy ["https://shared.example/~alice"] in
  let e := link_element alice_home "https://shared.example/~bob/page" 200 in
  let u := mkURL "shared.example" "/~bob/page" "https://shared.example/~bob/page" in
  @classified plain pol e "https://shared.example/~bob/page" u /\
  enqueued (mkCrawl ∅ [] []) (@OnLink plain pol e (mkCrawl ∅ [] [])) = [].
Proof.
  intros pol e u.
  assert (Hc : @classified plain pol e "https://shared.example/~bob/page" u).
  { repeat split; vm_compute; congruence. }
  split; [exact Hc|].
  apply (proj2 (proj2 (@pathsite_restricts_enqueue plain pol e _ u (mkCrawl ∅ [] []) Hc)));
    reflexivity.
Defined.

(** C9: the queueing rule looks at the first PathSite, in the order of the
    seed list, whose URL contains the domain of the link, and at no other: a
    link that does not start with that PathSite is not queued, also when it
    starts with a later PathSite. *)
Theorem first_pathsite_decides `{Collaborators}
  (pol : Policy) (e : HTMLElement) (link : string) (u : URL) (st : CrawlState)
  (before : list string) (s1 : string) (later : list string) :
  classified pol e link u ->
  pathsites pol = before ++ s1 :: later ->
  (forall s', s' ∈ before -> GoStrings.Contains s' (Hostname u) = false) ->
  GoStrings.Contains s1 (Hostname u) = true -> s1 <> "" ->
  enqueued st (OnLink pol e st)
  = (if GoStrings.HasPrefix link s1 then [link] else []) /\
  (forall s2, s2 ∈ later -> GoStrings.HasPrefix link s2 = true ->
     GoStrings.HasPrefix link s1 = false ->
     enqueued st (OnLink pol e st) = []).
Proof.
  intros Hc Hps Hb Hs Hne.
  assert (Hq : enqueued st (OnLink pol e st)
               = if GoStrings.HasPrefix link s1 then [link] else []).
  { rewrite (OnLink_enqueued pol e link u st Hc). cbv zeta.
    rewrite Hps, (pathsite_for_first _ _ _ _ Hb Hs).
    by rewrite (bool_decide_eq_true_2 _ Hne). }
  split; [exact Hq|]. intros s2 _ _ Hno. by rewrite Hq, Hno.
Qed.

Lemma first_pathsite_decides_witness :
  let pol := shared_policy ["https://shared.example/~alice"; "https://shared.example/~bob"] in
  let e := link_element alice_home "https://shared.example/~bob/page" 200 in
  let u := mkURL "shared.example" "/~bob/page" "https://shared.example/~bob/page" in
  GoStrings.HasPrefix "https://shared.example/~bob/page" "https://shared.example/~bob" = true /\
  enqueued (mkCrawl ∅ [] []) (@OnLink plain pol e (mkCrawl ∅ [] [])) = [].
Proof.
  intros pol e u. split; [reflexivity|].
  assert (Hc : @classified plain pol e "https://shared.example/~bob/page" u).
  { repeat split; vm_compute; congruence. }
  refine (proj2 (@first_pathsite_decides plain pol e _ u (mkCrawl ∅ [] [])
                   [] "https://shared.example/~alice" ["https://shared.example/~bob"]
                   Hc eq_refl _ eq_refl _)
                "https://shared.example/~bob" _ eq_refl eq_refl).
  - by intros s' ?%elem_of_nil.
  - discriminate.
  - by apply list_elem_of_singleton.
Defined.

(** What the callback prints for a link between ring domains that is not
    boring. *)
Lemma log_link_ring `{Collaborators}
  (pol : Policy) (e : HTMLElement) (link : string) (u : URL) (st : CrawlState) :
  util_Contains (boringWords pol) link = false ->
  util_Contains (boringDomains pol) link = false ->
  find (domains pol) (Hostname u) = true ->
  emitted st (log_link pol e link u st)
  = if bool_decide (Hostname u <> Hostname (Request_URL e))
       && bool_decide (Hostname u <> initialDomain pol)
       && bool_decide (Hostname (Request_URL e) <> initialDomain pol)
    then [mkLine "webring-link" link (URL_String (Request_URL e))
                 (depth_of st (URL_String (Request_URL e)))]
    else [].
Proof.
  intros Hw Hd Hring. unfold log_link. rewrite Hw, Hd, Hring. simpl.
  destruct (_ && _); [apply emitted_report|apply emitted_refl].
Qed.

Lemma Crawl_setup_initialDomain `{Collaborators} `{Schemes}
  (config : Config) (pol : Policy) (st0 : CrawlState) :
  Crawl_setup config = Some (pol, st0) -> initialDomain pol = General_URL config.
Proof.
  unfold Crawl_setup. destruct (negb _); [done|].
  destruct (getWebringLinks _) as [[links depths]|]; [|done].
  destruct (getDomains links) as [ds ps].
  destruct (seed _ _ _ _) as [st|]; [|done]. by intros [= <- _].
Qed.

(** C6 (the code does otherwise): the links from and to the root site are
    not left out.  The initial domain of [Crawl] is [config.General.URL] as
    it stands (line 320), the URL that [Precrawl] requests, and the callback
    compares host names with it.  When that URL has a scheme, and the host
    names of the link and of the page hold no "://", the two comparisons
    with the initial domain always succeed: a link between ring domains that
    is not boring is printed as "webring-link" exactly when its domain
    differs from the domain of the page, also when the page or the link is
    on the host of the root URL. *)
Theorem webring_link_root_not_excluded `{Collaborators} `{Schemes}
  (config : Config) (pol : Policy) (st0 : CrawlState)
  (e : HTMLElement) (link : string) (u : URL) (st : CrawlState) :
  Crawl_setup config = Some (pol, st0) ->
  GoStrings.Contains (General_URL config) "://" = true ->
  GoStrings.Contains (Hostname u) "://" = false ->
  GoStrings.Contains (Hostname (Request_URL e)) "://" = false ->
  classified pol e link u ->
  util_Contains (boringWords pol) link = false ->
  util_Contains (boringDomains pol) link = false ->
  find (domains pol) (Hostname u) = true ->
  let record :=
    mkLine "webring-link" link (URL_String (Request_URL e))
           (depth_of st (URL_String (Request_URL e))) in
  emitted st (OnLink pol e st)
  = (if bool_decide (Hostname u <> Hostname (Request_URL e)) then [record] else []) /\
  (forall root,
     url_Parse (General_URL config) = Some root ->
     Hostname u <> Hostname (Request_URL e) ->
     Hostname (Request_URL e) = Hostname root \/ Hostname u = Hostname root ->
     emitted st (OnLink pol e st) = [record]).
Proof.
  intros Hs Hurl Hu He Hc Hw Hd Hring record.
  assert (Hout : emitted st (OnLink pol e st)
                 = if bool_decide (Hostname u <> Hostname (Request_URL e))
                   then [record] else []).
  { rewrite (OnLink_emitted pol e link u st Hc), (log_link_ring pol e link u st Hw Hd Hring).
    rewrite (Crawl_setup_initialDomain config pol st0 Hs).
    assert (H1 : Hostname u <> General_URL config) by congruence.
    assert (H2 : Hostname (Request_URL e) <> General_URL config) by congruence.
    rewrite (bool_decide_eq_true_2 _ H1), (bool_decide_eq_true_2 _ H2).
    by rewrite !andb_true_r. }
  split; [exact Hout|].
  intros root _ Hne _. by rewrite Hout, (bool_decide_eq_true_2 _ Hne).
Qed.

Lemma webring_link_root_not_excluded_witness :
  let config :=
    mkConfig "https://root.example" "" ["https://root.example 0"; "https://a.example 1"]
             [] [] [] [] [] [] in
  let e := link_element (mkURL "root.example" "/" "https://root.example/")
                        "https://a.example/hello" 200 in
  let st := mkCrawl ∅ [] [] in
  exists pol st0 root,
    @Crawl_setup plain plain_schemes config = Some (pol, st0) /\
    plain_Parse (General_URL config) = Some root /\
    Hostname (Request_URL e) = Hostname root /\
    emitted st (@OnLink plain pol e st)
    = [mkLine "webring-link" "https://a.example/hello" "https://root.example/" 0].
Proof.
  intros config e st.
  set (pol := mkPolicy [] ["root.example"; "a.example"] [] "https://root.example" [] []
                       ["main p"; "article p"; "section p"; "p"] []).
  set (st0 := mkCrawl (<["https://a.example" := 1]> (<["https://root.example" := 0]> ∅))
                      ["https://root.example"; "https://a.example"] []).
  set (u := mkURL "a.example" "/hello" "https://a.example/hello").
  set (root := mkURL "root.example" "" "https://root.example").
  assert (Hs : @Crawl_setup plain plain_schemes config = Some (pol, st0)) by reflexivity.
  assert (Hc : @classified plain pol e "https://a.example/hello" u).
  { repeat split; vm_compute; congruence. }
  exists pol, st0, root.
  split; [exact Hs|]. split; [reflexivity|]. split; [reflexivity|].
  apply (proj2 (@webring_link_root_not_excluded plain plain_schemes config pol st0 e _ u st
                  Hs eq_refl eq_refl eq_refl Hc eq_refl eq_refl eq_refl) root).
  - reflexivity.
  - discriminate.
  - by left.
Defined.

(** ** The depth map *)

Section DepthMap.
Context `{Collaborators}.

Lemma tagged_refl e st : tagged e st st.
Proof. split; [done|]. exists []. by rewrite app_nil_r. Qed.

Lemma tagged_trans e st1 st2 st3 : tagged e st1 st2 -> tagged e st2 st3 -> tagged e st1 st3.
Proof.
  intros [Hd1 (n1 & Ho1 & Hf1)] [Hd2 (n2 & Ho2 & Hf2)]. split; [congruence|].
  exists (n1 ++ n2). split; [by rewrite Ho2, Ho1, app_assoc|].
  apply Forall_app. split; [done|]. by rewrite Hd1 in Hf2.
Qed.

Lemma tagged_report k text e st : tagged e st (report k text e st).
Proof. split; [done|]. eexists. split; [done|]. by repeat constructor. Qed.

Lemma tagged_AddURL u e st : tagged e st (AddURL u st).
Proof. split; [done|]. exists []. by rewrite app_nil_r. Qed.

Lemma tagged_collectHeadingText heading e st : tagged e st (collectHeadingText heading e st).
Proof.
  unfold collectHeadingText. generalize (ChildTexts e heading). intros texts.
  revert st. induction texts as [|t texts IH]; intros st; simpl; [apply tagged_refl|].
  eapply tagged_trans; [|apply IH].
  destruct (_ <? _); [apply tagged_report|apply tagged_refl].
Qed.

Local Ltac tagged_steps :=
  repeat first
    [ apply tagged_refl | apply tagged_report | apply tagged_AddURL
    | apply tagged_collectHeadingText
    | match goal with
      | |- tagged _ _ (if ?b then _ else _) => destruct b
      | |- tagged _ _ (match ?o with Some _ => _ | None => _ end) => destruct o
      end ].

Lemma tagged_OnLink pol e st : tagged e st (OnLink pol e st).
Proof.
  unfold OnLink.
  destruct (_ || _); [apply tagged_refl|].
  destruct (findSuffix _ _); [apply tagged_refl|].
  destruct (url_Parse _) as [u|]; [|apply tagged_refl].
  cbv zeta.
  match goal with
  | |- context [AddURL _ ?s] => assert (Hlog : tagged e st s) by tagged_steps
  end.
  repeat match goal with
         | |- tagged _ _ (if ?b then _ else _) => destruct b
         end;
    first [ exact Hlog | eapply tagged_trans; [exact Hlog|apply tagged_AddURL] ].
Qed.

Lemma tagged_OnBody pol e st : tagged e st (OnBody pol e st).
Proof.
  unfold OnBody. cbv zeta.
  eapply tagged_trans; [|apply tagged_collectHeadingText].
  eapply tagged_trans; [|apply tagged_collectHeadingText].
  eapply tagged_trans; [|apply tagged_collectHeadingText].
  match goal with
  | |- tagged _ _ (if _ then report _ _ _ ?s else _) =>
      assert (Hpara : tagged e st s) by tagged_steps
  end.
  destruct (_ && _); [|exact Hpara].
  eapply tagged_trans; [exact Hpara|apply tagged_report].
Qed.

Lemma tagged_callback pol cb e st : tagged e st (callback pol cb e st).
Proof.
  destruct cb; simpl; [apply tagged_OnLink| | | | | |apply tagged_OnBody];
    unfold OnKeywords, OnDescription, OnOgDescription, OnLang, OnTitle;
    cbv zeta; tagged_steps.
Qed.

(** Every line of a run carries the depth that the map, as it was at the
    start, gives to the page of the line. *)
Lemma Crawl_run_depths pol calls st :
  Forall (fun l => page_depth l = default 0 (linkDepths st !! page l)) (stdout st) ->
  linkDepths (Crawl_run pol calls st) = linkDepths st /\
  Forall (fun l => page_depth l = default 0 (linkDepths st !! page l))
         (stdout (Crawl_run pol calls st)).
Proof.
  revert st. induction calls as [|[cb e] calls IH]; intros st Hst; simpl; [done|].
  destruct (tagged_callback pol cb e st) as [Hd (new & Ho & Hnew)].
  destruct (IH (callback pol cb e st)) as [Hd' Hf'].
  - rewrite Ho, Hd. apply Forall_app. split; [done|].
    eapply Forall_impl; [exact Hnew|]. by intros l [_ ?].
  - split; [congruence|]. by rewrite Hd in Hf'.
Qed.

(** The loop over the seeds writes one entry per seed, a later seed over an
    earlier one with the same URL. *)
Lemma seed_linkDepths links depths i st st' :
  seed links depths i st = Some st' ->
  (length links <= length (drop i depths))%nat /\
  stdout st' = stdout st /\
  linkDepths st'
  = list_to_map (reverse (zip links (drop i depths))) ∪ linkDepths st.
Proof.
  revert i st. induction links as [|l links IH]; intros i st; simpl.
  - intros [= <-]. split; [lia|]. split; [done|].
    by rewrite (left_id_L ∅ (∪)).
  - destruct (depths !! i) as [d|] eqn:E; [|done]. intros Hs.
    apply IH in Hs as (Hlen & Hout & Hmap).
    rewrite (drop_S _ _ _ E). simpl. split; [lia|]. split; [done|].
    rewrite Hmap. simpl. rewrite reverse_cons, list_to_map_app. simpl.
    rewrite (insert_union_singleton_l (linkDepths st)), insert_empty.
    by rewrite (assoc_L (∪)).
Qed.

End DepthMap.

(** C8: [Crawl] writes the depth map once, before the run: one entry per
    seed URL with its configured depth, the seed URLs and depths being what
    [getWebringLinks] reads from the seed file.  No callback writes it, and
    every line printed for a page whose URL string is no seed URL carries
    depth 0. *)
Theorem linkDepths_written_once `{Collaborators} `{Schemes}
  (config : Config) (pol : Policy) (st0 : CrawlState)
  (calls : list (Callback * HTMLElement)) :
  Crawl_setup config = Some (pol, st0) ->
  exists links depths,
    getWebringLinks (Crawler_Webring config) = Some (links, depths) /\
    linkDepths st0 = list_to_map (reverse (zip links depths)) /\
    (forall k, k ∈ dom (linkDepths st0) <-> k ∈ links) /\
    linkDepths (Crawl_run pol calls st0) = linkDepths st0 /\
    (forall l, l ∈ stdout (Crawl_run pol calls st0) ->
               page l ∉ links -> page_depth l = 0).
Proof.
  unfold Crawl_setup. destruct (negb _); [done|].
  destruct (getWebringLinks _) as [[links depths]|]; [|done].
  destruct (getDomains links) as [ds ps].
  destruct (seed links depths 0 _) as [st|] eqn:Hseed; [|done].
  intros [= <- <-]. exists links, depths. split; [done|].
  apply seed_linkDepths in Hseed as (Hlen & Hout & Hmap).
  rewrite drop_0 in *. simpl in Hout, Hmap. rewrite (right_id_L ∅ (∪)) in Hmap.
  assert (Hdom : forall k, k ∈ dom (linkDepths st) <-> k ∈ links).
  { intros k. rewrite Hmap, dom_list_to_map_L, elem_of_list_to_set.
    by rewrite fmap_reverse, elem_of_reverse, fst_zip. }
  destruct (Crawl_run_depths
              (mkPolicy (Crawler_BannedSuffixes config) ds ps (General_URL config)
                 (Crawler_BoringDomains config) (Crawler_BoringWords config)
                 (getPreviewQueries (Crawler_PreviewQueries config))
                 (Data_Heuristics config)) calls st) as [Hd Hf].
  { by rewrite Hout. }
  repeat split; try done; try apply Hdom.
  intros l Hl Hno. rewrite Forall_forall in Hf. rewrite (Hf l Hl).
  rewrite <- Hdom in Hno. apply not_elem_of_dom in Hno. by rewrite Hno.
Qed.

Lemma linkDepths_written_once_witness :
  let config :=
    mkConfig "root.example" "" ["https://a.example 2"; "https://b.example 1"]
             [] [] [] [] [] [] in
  let e := link_element (mkURL "a.example" "/about" "https://a.example/about")
                        "https://b.example" 200 in
  exists pol st0,
    @Crawl_setup plain plain_schemes config = Some (pol, st0) /\
    forall l, l ∈ stdout (@Crawl_run plain pol [(on_title, e); (on_a_href, e)] st0) ->
              page l ∉ ["https://a.example"; "https://b.example"] -> page_depth l = 0.
Proof.
  intros config e. eexists. eexists.
  assert (Hs : @Crawl_setup plain plain_schemes config
               = Some (mkPolicy [] ["a.example"; "b.example"] [] "root.example" [] []
                                ["main p"; "article p"; "section p"; "p"] [],
                       mkCrawl (<["https://b.example" := 1]> (<["https://a.example" := 2]> ∅))
                               ["https://a.example"; "https://b.example"] []))
    by reflexivity.
  split; [exact Hs|].
  destruct (@linkDepths_written_once plain plain_schemes config _ _
              [(on_title, e); (on_a_href, e)] Hs)
    as (links & depths & Hg & _ & _ & _ & Hl).
  vm_compute in Hg. injection Hg as <- <-. exact Hl.
Defined.

(** ** The status test *)

Section Status.
Context `{Collaborators}.

Lemma QueryLoop_with_status heur queries code e :
  QueryLoop heur queries (with_status code e) = QueryLoop heur queries e.
Proof. induction queries as [|q queries IH]; simpl; [done|]. by rewrite IH. Qed.

Lemma OnBody_with_status pol code e st :
  OnBody pol (with_status code e) st = OnBody pol e st.
Proof. unfold OnBody. by rewrite QueryLoop_with_status. Qed.

End Status.

(** ** The discovery protocol *)

Section DiscoveryFacts.
Context `{Collaborators} `{Web}.

Lemma Pop_elem_of n (s : gset Hypha) d : Pop n s = Some d -> d ∈ s.
Proof.
  unfold Pop. intros Hl. apply elem_of_elements.
  by apply list_elem_of_lookup_2 in Hl.
Qed.

Lemma Pop_is_Some n (s : gset Hypha) : size s <> 0%nat -> is_Some (Pop n s).
Proof.
  intros Hs. unfold Pop. apply lookup_lt_is_Some_2.
  change (length (elements s)) with (size s).
  by apply Nat.mod_upper_bound.
Qed.

Lemma elem_of_fold_union {A B : Type} `{Countable B} (f : A -> B) (l : list A)
  (s0 : gset B) (x : B) :
  x ∈ fold_left (fun s v => s ∪ {[ f v ]}) l s0 <->
  x ∈ s0 \/ exists v, v ∈ l /\ x = f v.
Proof.
  revert s0. induction l as [|a l IH]; intros s0; simpl.
  - split; [by left|]. intros [?|(v & ?%elem_of_nil & _)]; done.
  - rewrite IH, elem_of_union, elem_of_singleton. split.
    + intros [[?| ->]|(v & Hv & ->)]; [by left| |].
      * right. exists a. split; [by left|done].
      * right. exists v. split; [by right|done].
    + intros [?|(v & [->|Hv]%elem_of_cons & ->)].
      * by left; left.
      * by left; right.
      * right. by exists v.
Qed.

(** More fuel does not change the outcome of a walk that has ended. *)
Lemma Precrawl_loop_more k fuel st :
  Precrawl_loop fuel st <> OutOfFuel ->
  Precrawl_loop (fuel + k) st = Precrawl_loop fuel st.
Proof.
  revert st. induction fuel as [|fuel IH]; intros st; simpl; [done|].
  destruct (Precrawl_step st); try done. apply IH.
Qed.

Lemma Precrawl_discover_more k config fuel :
  Precrawl_discover config fuel <> OutOfFuel ->
  Precrawl_discover config (fuel + k) = Precrawl_discover config fuel.
Proof.
  unfold Precrawl_discover. destruct (negb _); [done|].
  destruct (client_Get _) as [r|]; [|done]. intros Hne.
  rewrite Precrawl_loop_more; [done|].
  intros Hout. by rewrite Hout in Hne.
Qed.

Lemma Precrawl_more k config fuel :
  Precrawl config fuel <> OutOfFuel ->
  Precrawl config (fuel + k) = Precrawl config fuel.
Proof.
  unfold Precrawl. intros Hne. rewrite Precrawl_discover_more; [done|].
  intros Hout. by rewrite Hout in Hne.
Qed.

Lemma wrap64_range z : int_range (wrap64 z).
Proof.
  unfold int_range, wrap64.
  pose proof (Z.mod_pos_bound (z + 2 ^ 63) (2 ^ 64) ltac:(lia)). lia.
Qed.

(** Transport errors end the run: a failed first request ... *)
Lemma Precrawl_first_get_fails config fuel :
  client_Get (General_URL config) = None -> Precrawl config fuel = Fatal.
Proof.
  intros Hg. unfold Precrawl, Precrawl_discover.
  destruct (negb _); [done|]. by rewrite Hg.
Qed.

(** ... a body that cannot be read, or a failed request for a hypha. *)
Lemma Precrawl_step_read_error st :
  ReadAll (res st) = None -> Precrawl_step st = Abort.
Proof. unfold Precrawl_step. by intros ->. Qed.

Lemma Precrawl_step_get_error st body d :
  ReadAll (res st) = Some body ->
  let st' := record_cluster (mkCluster (json_Location body) (json_Hyphae body)
                                       (json_Spores body) (depthCounter st)) st in
  size (allHyphae st' ∖ checked st') <> 0%nat ->
  Pop (iteration st') (allHyphae st' ∖ checked st') = Some d ->
  client_Get (Hypha_Url d) = None ->
  Precrawl_step st = Abort.
Proof.
  intros Hr st' Hs Hp Hg. unfold Precrawl_step. rewrite Hr. fold st'.
  rewrite (bool_decide_eq_false_2 _ Hs), Hp. by rewrite Hg.
Qed.

(** A last response with a status other than 200 ends the run. *)
Lemma Precrawl_last_status config fuel r st :
  SetupDefaultProxy config = true ->
  client_Get (General_URL config) = Some r ->
  Precrawl_loop fuel (mkDiscovery r 0 ∅ ∅ ∅ 0) = Done st ->
  StatusCode (res st) <> 200 ->
  Precrawl config fuel = Fatal.
Proof.
  intros Hp Hg Hl Hs. unfold Precrawl, Precrawl_discover.
  rewrite Hp, Hg, Hl. simpl. by rewrite (bool_decide_eq_true_2 _ Hs).
Qed.

End DiscoveryFacts.

Section WalkStart.
Context `{Collaborators} `{Web}.
Variable urls : list string.

Lemma walk_inv_start config r :
  General_URL config ∈ urls ->
  client_Get (General_URL config) = Some r ->
  walk_inv urls (walk_start r).
Proof.
  intros Hin Hg. split; [|split].
  - exists (General_URL config). split; [done|]. split.
    + split; [done|]. unfold int_range. simpl. lia.
    + simpl. set_solver.
  - intros h. simpl. set_solver.
  - intros h. simpl. set_solver.
Qed.

Lemma known_universe h : known urls h -> h ∈ universe urls.
Proof.
  intros [Hu Hd]. unfold universe. apply list_elem_of_fmap.
  exists (Hypha_Url h, Hypha_Depth h). split; [by destruct h|].
  apply list_elem_of_In, in_prod; apply list_elem_of_In; [done|].
  apply elem_of_seqZ. unfold int_range in Hd. lia.
Qed.

Lemma length_universe :
  Z.of_nat (length (universe urls)) = Z.of_nat (length urls) * 2 ^ 64.
Proof.
  unfold universe. rewrite length_fmap, length_prod, length_seqZ. lia.
Qed.

End WalkStart.

Section Walk.
Context `{Collaborators} `{Web}.
Variable urls : list string.
Hypothesis graph : closed_graph urls.

(** One pass: the checked set gets one more hypha, and the next pass starts
    from a response for an unchecked one. *)
Lemma walk_step st :
  walk_inv urls st ->
  match Precrawl_step st with
  | Abort => True
  | Precrawled st' =>
      checked st ⊂ checked st' /\ size (checked st') = S (size (checked st))
  | Continue st' =>
      walk_inv urls st' /\
      checked st ⊂ checked st' /\ size (checked st') = S (size (checked st))
  end.
Proof.
  intros ((u & Hget & [Hu Hd] & Hnew) & Hchecked & Hall).
  simpl in Hu, Hd. unfold Precrawl_step.
  destruct (ReadAll (res st)) as [b|] eqn:Hb; [|done].
  destruct (graph u (res st) b Hu Hget Hb) as [Hloc Hhy].
  set (st1 := record_cluster _ st).
  assert (Hc1 : checked st1 = checked st ∪ {[ mkHypha u (depthCounter st) ]}).
  { unfold st1, record_cluster. simpl. by rewrite Hloc. }
  assert (Hgrow : checked st ⊂ checked st1 /\ size (checked st1) = S (size (checked st))).
  { rewrite Hc1. split; [set_solver|].
    rewrite size_union by set_solver. rewrite size_singleton. lia. }
  assert (Hall1 : forall h, h ∈ allHyphae st1 -> known urls h).
  { intros h. unfold st1, record_cluster. simpl.
    rewrite elem_of_fold_union. intros [Hh|(v & Hv & ->)]; [by apply Hall|].
    split; simpl; [by apply Hhy|apply wrap64_range]. }
  assert (Hchecked1 : forall h, h ∈ checked st1 -> known urls h).
  { intros h. rewrite Hc1, elem_of_union, elem_of_singleton.
    intros [Hh| ->]; [by apply Hchecked|done]. }
  case_bool_decide as Hsize; [done|].
  destruct (Pop_is_Some (iteration st1) _ Hsize) as [d Hpop]. rewrite Hpop.
  apply Pop_elem_of in Hpop. apply elem_of_difference in Hpop as [Hd1 Hd2].
  destruct (client_Get (Hypha_Url d)) as [r|] eqn:Hr; [|done].
  split; [|done]. split; [|split]; simpl; [|done|done].
  exists (Hypha_Url d). split; [done|].
  replace (mkHypha (Hypha_Url d) (Hypha_Depth d)) with d by (by destruct d).
  split; [by apply Hall1|done].
Qed.

Lemma walk_pass n st st' :
  walk_inv urls st -> Precrawl_pass n st = Some st' -> walk_inv urls st'.
Proof.
  revert st. induction n as [|n IH]; intros st Hinv; simpl; [by intros [= <-]|].
  pose proof (walk_step st Hinv) as Hstep.
  destruct (Precrawl_step st) as [| |st1]; try done.
  apply IH. by destruct Hstep.
Qed.

Lemma checked_bounded (U : list Hypha) st :
  (forall h, known urls h -> h ∈ U) ->
  walk_inv urls st -> (size (checked st) <= length U)%nat.
Proof.
  intros HU (_ & Hchecked & _).
  change (size (checked st)) with (length (elements (checked st))).
  apply submseteq_length, NoDup_submseteq; [apply NoDup_elements|].
  intros h Hh. apply HU, Hchecked. by apply elem_of_elements.
Qed.

(** The walk ends before the checked set would outgrow the hyphae. *)
Lemma walk_ends (U : list Hypha) fuel st :
  (forall h, known urls h -> h ∈ U) ->
  walk_inv urls st ->
  (length U < size (checked st) + fuel)%nat ->
  Precrawl_loop fuel st <> OutOfFuel.
Proof.
  intros HU. revert st. induction fuel as [|fuel IH]; intros st Hinv Hlen.
  - pose proof (checked_bounded U st HU Hinv). lia.
  - simpl. pose proof (walk_step st Hinv) as Hstep.
    destruct (Precrawl_step st) as [| |st1]; try done.
    destruct Hstep as (Hinv1 & _ & Hsize). apply IH; [done|lia].
Qed.

End Walk.

Section Emission.
Context `{Collaborators} `{Web}.

Lemma emit_site_listed BANNED h :
  emit_site BANNED h
  = if listed BANNED h then [(getLink (Site_Url h), Site_Depth h)] else [].
Proof.
  unfold emit_site, listed. destruct (url_Parse _) as [u|]; [|done].
  by destruct (find BANNED (Hostname u)).
Qed.

Lemma Precrawl_Done config fuel lines :
  Precrawl config fuel = Done lines ->
  exists st,
    Precrawl_discover config fuel = Done st /\
    lines = flat_map (emit_site (Crawler_BannedDomains config)) (elements (allSites st)).
Proof.
  unfold Precrawl. destruct (Precrawl_discover config fuel) as [| |st]; try done.
  intros [= <-]. by exists st.
Qed.

(** A pass that leaves exactly one unchecked hypha goes on with it. *)
Lemma Precrawl_step_next st body d r :
  ReadAll (res st) = Some body ->
  let st' := record_cluster (mkCluster (json_Location body) (json_Hyphae body)
                                       (json_Spores body) (depthCounter st)) st in
  allHyphae st' ∖ checked st' = {[ d ]} ->
  client_Get (Hypha_Url d) = Some r ->
  Precrawl_step st
  = Continue (mkDiscovery r (Hypha_Depth d) (checked st') (allHyphae st')
                          (allSites st') (S (iteration st'))).
Proof.
  intros Hb st' Hdiff Hr. unfold Precrawl_step. rewrite Hb. fold st'.
  rewrite Hdiff, size_singleton. simpl.
  unfold Pop. rewrite elements_singleton, size_singleton, Nat.mod_1_r. simpl.
  by rewrite Hr.
Qed.

(** A pass that leaves no unchecked hypha is the last. *)
Lemma Precrawl_step_last st body :
  ReadAll (res st) = Some body ->
  let st' := record_cluster (mkCluster (json_Location body) (json_Hyphae body)
                                       (json_Spores body) (depthCounter st)) st in
  allHyphae st' ∖ checked st' = ∅ ->
  Precrawl_step st = Precrawled st'.
Proof.
  intros Hb st' Hdiff. unfold Precrawl_step. rewrite Hb. fold st'.
  by rewrite Hdiff, size_empty.
Qed.

End Emission.

(** C3: when the seed returns location https://a, hyphae https://a/2 and
    spores https://b, and https://a/2 returns location https://a/2, no
    hyphae and spores https://c, both with status 200, and neither b nor c
    is banned, [Precrawl] prints exactly the pairs (https://b, 0) and
    (https://c, 1), in some order. *)
Theorem Precrawl_two_documents `{Collaborators} `{Web}
  (config : Config) (ub uc : URL) (fuel : nat) :
  SetupDefaultProxy config = true ->
  client_Get (General_URL config)
    = Some (document 200 "https://a" ["https://a/2"] ["https://b"]) ->
  client_Get "https://a/2" = Some (document 200 "https://a/2" [] ["https://c"]) ->
  url_Parse "https://b" = Some ub ->
  url_Parse "https://c" = Some uc ->
  find (Crawler_BannedDomains config) (Hostname ub) = false ->
  find (Crawler_BannedDomains config) (Hostname uc) = false ->
  (2 <= fuel)%nat ->
  exists lines,
    Precrawl config fuel = Done lines /\
    lines ≡ₚ [("https://b", 0); ("https://c", 1)].
Proof.
  intros Hproxy Ha Ha2 Hb Hc Hnb Hnc Hfuel.
  set (doc_a := document 200 "https://a" ["https://a/2"] ["https://b"]) in *.
  set (doc_a2 := document 200 "https://a/2" [] ["https://c"]) in *.
  assert (Hloop : exists st,
             Precrawl_loop 2 (walk_start doc_a) = Done st /\
             res st = doc_a2 /\
             allSites st = {[ mkSite "https://b" 0 ]} ∪ {[ mkSite "https://c" 1 ]}).
  { eexists. split; [|split].
    - cbn [Precrawl_loop].
      erewrite (Precrawl_step_next (walk_start doc_a) _ (mkHypha "https://a/2" 1));
        [|reflexivity| |exact Ha2].
      + erewrite Precrawl_step_last; [reflexivity|reflexivity|].
        cbn. change (wrap64 (0 + 1)) with 1. set_solver.
      + cbn. change (wrap64 (0 + 1)) with 1. apply set_eq. intros x.
        rewrite elem_of_difference, !elem_of_union, !elem_of_singleton.
        split; [by intros [[?%not_elem_of_empty|?] _]|].
        intros ->. split; [by right|].
        intros [?%not_elem_of_empty|?]; [done|discriminate].
    - reflexivity.
    - cbn. by rewrite (left_id_L ∅ (∪)). }
  destruct Hloop as (final & Hloop & Hres & Hsites).
  assert (Hdisc : Precrawl_discover config 2 = Done final).
  { unfold Precrawl_discover. rewrite Hproxy, Ha. cbn [negb].
    change (mkDiscovery doc_a 0 ∅ ∅ ∅ 0) with (walk_start doc_a).
    rewrite Hloop, Hres. reflexivity. }
  assert (Hel : elements (allSites final)
                ≡ₚ [mkSite "https://b" 0; mkSite "https://c" 1]).
  { rewrite Hsites, elements_disj_union
      by (apply disjoint_singleton_l; rewrite elem_of_singleton; discriminate).
    by rewrite !elements_singleton. }
  assert (Hgb : getLink "https://b" = "https://b") by (vm_compute; reflexivity).
  assert (Hgc : getLink "https://c" = "https://c") by (vm_compute; reflexivity).
  assert (H2 : exists lines, Precrawl config 2 = Done lines /\
                 lines ≡ₚ [("https://b", 0); ("https://c", 1)]).
  { unfold Precrawl. rewrite Hdisc. eexists. split; [reflexivity|].
    etrans; [apply Permutation_flat_map, Hel|].
    cbn [flat_map app]. unfold emit_site. cbn [Site_Url Site_Depth].
    by rewrite Hgb, Hgc, Hb, Hc, Hnb, Hnc. }
  destruct H2 as (lines & Hl & Hperm). exists lines. split; [|exact Hperm].
  replace fuel with (2 + (fuel - 2))%nat by lia.
  rewrite Precrawl_more; [exact Hl|]. by rewrite Hl.
Qed.

Lemma Precrawl_two_documents_witness :
  exists lines,
    @Precrawl plain two_documents (discovery_config ["banned.example"]) 2 = Done lines /\
    lines ≡ₚ [("https://b", 0); ("https://c", 1)].
Proof.
  apply (@Precrawl_two_documents plain two_documents
           (discovery_config ["banned.example"])
           (mkURL "b" "" "https://b") (mkURL "c" "" "https://c") 2);
    reflexivity.
Defined.

(** ** Errors of decoding *)

Section DecodeErrors.
Context `{Collaborators} (W : Web).

Lemma Precrawl_step_without_errors st :
  @Precrawl_step (without_errors W) (clear_state st)
  = match @Precrawl_step W st with
    | Abort => Abort
    | Precrawled st' => Precrawled (clear_state st')
    | Continue st' => Continue (clear_state st')
    end.
Proof.
  unfold Precrawl_step. destruct st as [r dc ch ah sites it].
  cbn [clear_state res clear_error ReadAll depthCounter].
  destruct (ReadAll r) as [b|]; cbn [option_map]; [|reflexivity].
  unfold record_cluster.
  cbn [json_Location json_Hyphae json_Spores Location Hyphae Spores Depth
       res depthCounter checked allHyphae allSites iteration].
  destruct (bool_decide _); [reflexivity|].
  unfold Pop. cbn [Pop_choice without_errors].
  destruct (elements _ !! _) as [d|]; [|reflexivity].
  cbn [client_Get without_errors].
  destruct (@client_Get W (Hypha_Url d)); reflexivity.
Qed.

Lemma Precrawl_loop_without_errors fuel st :
  @Precrawl_loop (without_errors W) fuel (clear_state st)
  = match @Precrawl_loop W fuel st with
    | OutOfFuel => OutOfFuel
    | Fatal => Fatal
    | Done st' => Done (clear_state st')
    end.
Proof.
  revert st. induction fuel as [|fuel IH]; intros st; cbn [Precrawl_loop]; [done|].
  rewrite Precrawl_step_without_errors.
  destruct (@Precrawl_step W st); [reflexivity|reflexivity|apply IH].
Qed.

(** The run is the same whether or not [json.Unmarshal] returns errors: the
    walk never looks at them. *)
Lemma Precrawl_without_errors config fuel :
  @Precrawl _ (without_errors W) config fuel = @Precrawl _ W config fuel.
Proof.
  unfold Precrawl, Precrawl_discover. destruct (negb _); [done|].
  cbn [without_errors client_Get].
  destruct (@client_Get W (General_URL config)) as [r|]; cbn [option_map]; [|done].
  change (mkDiscovery (clear_error r) 0 ∅ ∅ ∅ 0)
    with (clear_state (mkDiscovery r 0 ∅ ∅ ∅ 0)).
  rewrite Precrawl_loop_without_errors.
  destruct (@Precrawl_loop W fuel _) as [| |st]; try done.
  cbn [clear_state res clear_error StatusCode allSites].
  by destruct (bool_decide _).
Qed.

End DecodeErrors.

(** C2 (the code does otherwise): the error of [json.Unmarshal] is dropped.
    When the body of the seed decodes with an error, leaving the location and
    the spore https://b in the cluster, the run goes on and prints the site. *)
Theorem Precrawl_ignores_decode_error `{Collaborators} `{Web}
  (config : Config) (ub : URL) :
  SetupDefaultProxy config = true ->
  client_Get (General_URL config)
    = Some (mkResponse 200 (Some (mkUnmarshalled "https://a" [] ["https://b"] true))) ->
  url_Parse "https://b" = Some ub ->
  find (Crawler_BannedDomains config) (Hostname ub) = false ->
  Precrawl config 1 = Done [("https://b", 0)].
Proof.
  intros Hproxy Ha Hb Hnb.
  assert (Hgb : getLink "https://b" = "https://b") by (vm_compute; reflexivity).
  set (r := mkResponse 200 (Some (mkUnmarshalled "https://a" [] ["https://b"] true))) in *.
  assert (Hloop : exists st,
             Precrawl_loop 1 (walk_start r) = Done st /\ res st = r /\
             allSites st = {[ mkSite "https://b" 0 ]}).
  { eexists. split; [|split].
    - cbn [Precrawl_loop].
      erewrite Precrawl_step_last; [reflexivity|reflexivity|].
      cbn. apply set_eq. intros x. rewrite elem_of_difference.
      split; [by intros [?%not_elem_of_empty _]|by intros ?%not_elem_of_empty].
    - reflexivity.
    - cbn. by rewrite (left_id_L ∅ (∪)). }
  destruct Hloop as (st & Hloop & Hres & Hsites).
  unfold Precrawl, Precrawl_discover. rewrite Hproxy, Ha. cbn [negb].
  change (mkDiscovery r 0 ∅ ∅ ∅ 0) with (walk_start r).
  rewrite Hloop, Hres. cbn [StatusCode r].
  rewrite bool_decide_eq_false_2 by (intros Hne; by apply Hne).
  rewrite Hsites, elements_singleton. cbn [flat_map app].
  unfold emit_site. cbn [Site_Url Site_Depth]. by rewrite Hgb, Hb, Hnb.
Qed.

Lemma Precrawl_ignores_decode_error_witness :
  @Precrawl plain half_decoded (discovery_config []) 1 = Done [("https://b", 0)].
Proof.
  apply (@Precrawl_ignores_decode_error plain half_decoded (discovery_config [])
           (mkURL "b" "" "https://b")); reflexivity.
Defined.

(** ** A graph with a cycle *)

Section Cycle.

Lemma wrap64_succ k : wrap64 (wrap64 k + 1) = wrap64 (k + 1).
Proof.
  unfold wrap64. f_equal.
  replace ((k + 2 ^ 63) mod 2 ^ 64 - 2 ^ 63 + 1 + 2 ^ 63)
    with ((k + 2 ^ 63) mod 2 ^ 64 + 1) by lia.
  rewrite Zplus_mod_idemp_l. f_equal. lia.
Qed.

Lemma wrap64_inj i j :
  0 <= i < 2 ^ 64 -> 0 <= j < 2 ^ 64 -> wrap64 i = wrap64 j -> i = j.
Proof.
  unfold wrap64. intros Hi Hj Heq.
  assert (Hm : (i + 2 ^ 63) mod 2 ^ 64 = (j + 2 ^ 63) mod 2 ^ 64) by lia.
  clear Heq. revert Hm.
  destruct (Z_lt_le_dec i (2 ^ 63)), (Z_lt_le_dec j (2 ^ 63)).
  - rewrite !Z.mod_small by lia. lia.
  - rewrite (Z.mod_small (i + _)) by lia.
    replace (j + 2 ^ 63) with ((j - 2 ^ 63) + 1 * 2 ^ 64) by lia.
    rewrite Z_mod_plus_full, Z.mod_small by lia. lia.
  - rewrite (Z.mod_small (j + _)) by lia.
    replace (i + 2 ^ 63) with ((i - 2 ^ 63) + 1 * 2 ^ 64) by lia.
    rewrite Z_mod_plus_full, Z.mod_small by lia. lia.
  - replace (i + 2 ^ 63) with ((i - 2 ^ 63) + 1 * 2 ^ 64) by lia.
    replace (j + 2 ^ 63) with ((j - 2 ^ 63) + 1 * 2 ^ 64) by lia.
    rewrite !Z_mod_plus_full, !Z.mod_small by lia. lia.
Qed.

Lemma self_loop_step choice k st :
  0 <= k -> k + 1 < 2 ^ 64 ->
  self_loop_at k st ->
  exists st', @Precrawl_step (self_loop choice) st = Continue st' /\ self_loop_at (k + 1) st'.
Proof.
  intros Hk Hk1 (Hres & Hdc & Hch & Hall).
  set (d := mkHypha "https://a" (wrap64 (k + 1))).
  set (b := mkUnmarshalled "https://a" ["https://a"] [] false).
  assert (Hb : ReadAll (res st) = Some b) by (by rewrite Hres).
  pose proof (@Precrawl_step_next (self_loop choice) st b d
                (document 200 "https://a" ["https://a"] []) Hb) as Hstep.
  cbv zeta in Hstep. eexists. split.
  - apply Hstep; [|reflexivity].
    cbn. rewrite Hdc, wrap64_succ. apply set_eq. intros h.
    rewrite elem_of_difference, !elem_of_union, !elem_of_singleton, Hch, Hall.
    fold d. split.
    + intros [[(i & Hi & ->)| ->] Hno]; [|done].
      exfalso. apply Hno. destruct (decide (i = k)) as [->|]; [by right|].
      left. exists i. split; [lia|done].
    + intros ->. split; [by right|].
      intros [(i & Hi & Heq)|Heq]; injection Heq as Heq;
        apply wrap64_inj in Heq; lia.
  - cbn. split; [done|]. split; [done|]. split.
    + intros h. cbn [checked]. rewrite elem_of_union, elem_of_singleton, Hch, Hdc. split.
      * intros [(i & Hi & ->)| ->]; [exists i|exists k]; split; (lia || done).
      * intros (i & Hi & ->). destruct (decide (i = k)) as [->|]; [by right|].
        left. exists i. split; [lia|done].
    + intros h. cbn [allHyphae].
      rewrite elem_of_union, elem_of_singleton, Hall, Hdc, wrap64_succ. split.
      * intros [(i & Hi & ->)| ->]; [exists i|exists (k + 1)]; split; (lia || done).
      * intros (i & Hi & ->). destruct (decide (i = k + 1)) as [->|]; [by right|].
        left. exists i. split; [lia|done].
Qed.

(** On the graph of one document that lists itself, every pass finds the
    same URL one level deeper: the walk is still running after any number of
    passes below 2^64, whatever [Pop] chooses. *)
Lemma self_loop_keeps_running choice (n : nat) :
  Z.of_nat n < 2 ^ 64 ->
  @Precrawl_loop (self_loop choice) n (walk_start (document 200 "https://a" ["https://a"] []))
  = OutOfFuel.
Proof.
  assert (Hgen : forall n k st,
             0 <= k -> k + Z.of_nat n < 2 ^ 64 -> self_loop_at k st ->
             @Precrawl_loop (self_loop choice) n st = OutOfFuel).
  { clear n. induction n as [|n IH]; intros k st Hk Hn Hst; [done|].
    cbn [Precrawl_loop].
    destruct (self_loop_step choice k st Hk ltac:(lia) Hst) as (st' & -> & Hst').
    apply (IH (k + 1)); [lia|lia|done]. }
  intros Hn. apply (Hgen n 0); [lia|lia|].
  split; [done|]. split; [done|]. split; intros h; simpl.
  - split; [by intros ?%not_elem_of_empty|]. intros (i & Hi & _). lia.
  - split; [by intros ?%not_elem_of_empty|]. intros (i & Hi & _). lia.
Qed.

End Cycle.

(** ** A cycle of two documents *)

Section TwoCycle.
Variable choice : nat -> nat.

Lemma cycle_url_next i : cycle_url (i + 1) = if Z.even i then "https://a/2" else "https://a".
Proof.
  unfold cycle_url. rewrite Z.add_1_r, Z.even_succ, <- Z.negb_even.
  by destruct (Z.even i).
Qed.

Lemma two_cycle_get i :
  @client_Get (two_cycle choice) (cycle_url i) = Some (mkResponse 200 (Some (cycle_body i))).
Proof.
  unfold cycle_body, cycle_spore. rewrite cycle_url_next. unfold cycle_url.
  by destruct (Z.even i).
Qed.

(** One pass on the cycle: the other document is requested, one level
    deeper; the checked set and the sites get one more element each. *)
Lemma two_cycle_step k st :
  0 <= k -> k + 1 < 2 ^ 64 ->
  two_cycle_at k st ->
  exists st', @Precrawl_step (two_cycle choice) st = Continue st' /\ two_cycle_at (k + 1) st'.
Proof.
  intros Hk Hk1 (Hres & Hdc & Hch & Hall & Hsites & Hsize).
  set (d := mkHypha (cycle_url (k + 1)) (wrap64 (k + 1))).
  assert (Hb : ReadAll (res st) = Some (cycle_body k)) by (by rewrite Hres).
  pose proof (@Precrawl_step_next (two_cycle choice) st (cycle_body k) d
                (mkResponse 200 (Some (cycle_body (k + 1)))) Hb) as Hstep.
  cbv zeta in Hstep.
  assert (Hnew : mkHypha (cycle_url k) (wrap64 k) ∉ checked st).
  { rewrite Hch. intros (i & Hi & Heq). injection Heq as _ Heq.
    apply wrap64_inj in Heq; lia. }
  eexists. split.
  - apply Hstep; [|apply two_cycle_get].
    unfold record_cluster, cycle_body.
    cbn [checked allHyphae Location Hyphae Depth json_Location json_Hyphae fold_left].
    rewrite Hdc, wrap64_succ. apply set_eq. intros h.
    rewrite elem_of_difference, !elem_of_union, !elem_of_singleton, Hch, Hall.
    fold d. split.
    + intros [[(i & Hi & ->)| ->] Hno]; [|done].
      exfalso. apply Hno. destruct (decide (i = k)) as [->|]; [by right|].
      left. exists i. split; [lia|done].
    + intros ->. split; [by right|].
      intros [(i & Hi & Heq)|Heq]; injection Heq as _ Heq;
        apply wrap64_inj in Heq; lia.
  - unfold two_cycle_at, record_cluster, cycle_body.
    cbn [res depthCounter checked allHyphae allSites Location Hyphae Spores Depth
         json_Location json_Hyphae json_Spores Hypha_Depth d fold_left].
    split; [done|]. split; [done|]. split; [|split; [|split]].
    + intros h. rewrite elem_of_union, elem_of_singleton, Hch, Hdc. split.
      * intros [(i & Hi & ->)| ->]; [exists i|exists k]; split; (lia || done).
      * intros (i & Hi & ->). destruct (decide (i = k)) as [->|]; [by right|].
        left. exists i. split; [lia|done].
    + intros h. rewrite elem_of_union, elem_of_singleton, Hall, Hdc, wrap64_succ. split.
      * intros [(i & Hi & ->)| ->]; [exists i|exists (k + 1)]; split; (lia || done).
      * intros (i & Hi & ->). destruct (decide (i = k + 1)) as [->|]; [by right|].
        left. exists i. split; [lia|done].
    + intros s. rewrite elem_of_union, elem_of_singleton, Hsites, Hdc. split.
      * intros [(i & Hi & ->)| ->]; [exists i|exists k]; split; (lia || done).
      * intros (i & Hi & ->). destruct (decide (i = k)) as [->|]; [by right|].
        left. exists i. split; [lia|done].
    + rewrite Hdc, size_union, size_singleton, Hsize; [lia|].
      apply disjoint_singleton_r. exact Hnew.
Qed.

Lemma two_cycle_start :
  two_cycle_at 0 (walk_start (document 200 "https://a" ["https://a/2"] ["https://b"])).
Proof.
  split; [done|]. split; [done|]. split; [|split; [|split]]; simpl.
  - intros h. split; [by intros ?%not_elem_of_empty|]. intros (i & Hi & _). lia.
  - intros h. split; [by intros ?%not_elem_of_empty|]. intros (i & Hi & _). lia.
  - intros s. split; [by intros ?%not_elem_of_empty|]. intros (i & Hi & _). lia.
  - exact (@size_empty Hypha (gset Hypha) _ _ _ _ _ _ _ _ _).
Qed.

Lemma two_cycle_passes (n : nat) k st :
  0 <= k -> k + Z.of_nat n < 2 ^ 64 -> two_cycle_at k st ->
  @Precrawl_loop (two_cycle choice) n st = OutOfFuel /\
  exists st', @Precrawl_pass (two_cycle choice) n st = Some st' /\
              two_cycle_at (k + Z.of_nat n) st'.
Proof.
  revert k st. induction n as [|n IH]; intros k st Hk Hn Hst.
  - split; [done|]. exists st. split; [done|]. by rewrite Z.add_0_r.
  - cbn [Precrawl_loop Precrawl_pass].
    destruct (two_cycle_step k st Hk ltac:(lia) Hst) as (st1 & -> & Hst1).
    destruct (IH (k + 1) st1 ltac:(lia) ltac:(lia) Hst1) as (Hloop & st' & Hpass & Hst').
    split; [exact Hloop|]. exists st'. split; [exact Hpass|].
    by replace (k + Z.of_nat (S n)) with (k + 1 + Z.of_nat n) by lia.
Qed.

End TwoCycle.

(** C1 (the code does otherwise): a graph with a cycle keeps the loop of
    [Precrawl] running.  A hypha
    is checked as a URL together with its depth, so a document that is
    reached again is reached one level deeper and counts as unchecked.  On
    the two documents of the example of the specification, with a link back
    from https://a/2 to https://a, the run has not ended after [n] passes,
    for every [n] below 2^64 and whatever [Pop] chooses: pass [i] requests
    one of the two URLs at depth [i], [checked] holds [n] hyphae on these
    two URLs, and every pass records the spore of its document once more,
    as a site with a new depth. *)
Theorem Precrawl_cycle_keeps_running `{Collaborators} (choice : nat -> nat) (n : nat) :
  Z.of_nat n < 2 ^ 64 ->
  @Precrawl _ (two_cycle choice) (discovery_config []) n = OutOfFuel /\
  exists st,
    @Precrawl_pass (two_cycle choice) n
       (walk_start (document 200 "https://a" ["https://a/2"] ["https://b"])) = Some st /\
    (forall h, h ∈ checked st <->
       exists i, 0 <= i < Z.of_nat n /\
                 h = mkHypha (if Z.even i then "https://a" else "https://a/2") (wrap64 i)) /\
    (forall s, s ∈ allSites st <->
       exists i, 0 <= i < Z.of_nat n /\
                 s = mkSite (if Z.even i then "https://b" else "https://c") (wrap64 i)) /\
    size (checked st) = n.
Proof.
  intros Hn.
  destruct (two_cycle_passes choice n 0 _ ltac:(lia) ltac:(lia) two_cycle_start)
    as (Hloop & st & Hpass & (_ & _ & Hch & _ & Hsites & Hsize)).
  split.
  - unfold Precrawl, Precrawl_discover.
    change (SetupDefaultProxy (discovery_config [])) with true.
    cbn [negb]. change (@client_Get (two_cycle choice) (General_URL (discovery_config [])))
      with (Some (document 200 "https://a" ["https://a/2"] ["https://b"])).
    cbv iota beta.
    change (mkDiscovery (document 200 "https://a" ["https://a/2"] ["https://b"]) 0 ∅ ∅ ∅ 0)
      with (walk_start (document 200 "https://a" ["https://a/2"] ["https://b"])).
    by rewrite Hloop.
  - exists st. split; [exact Hpass|]. rewrite Z.add_0_l in *.
    split; [exact Hch|]. split; [exact Hsites|]. by rewrite Hsize, Nat2Z.id.
Qed.

Lemma Precrawl_cycle_keeps_running_witness :
  Z.of_nat 1000 < 2 ^ 64 /\
  @Precrawl plain (two_cycle (fun n => n)) (discovery_config []) 1000 = OutOfFuel.
Proof.
  assert (Hn : Z.of_nat 1000 < 2 ^ 64) by reflexivity.
  split; [exact Hn|].
  exact (proj1 (@Precrawl_cycle_keeps_running plain (fun n => n) 1000 Hn)).
Defined.

(** ** Further properties of the link normalizer *)

Section NormalizerFacts.
Import GoStrings.

Lemma to_bytes_app s1 s2 : to_bytes (String.append s1 s2) = to_bytes s1 ++ to_bytes s2.
Proof. induction s1 as [|a s1 IH]; simpl; [done|]. by rewrite <- IH. Qed.

Lemma starts_with_space_spec (l : bytes) :
  existsb (has_prefix l) unicode_space = false <->
  forall p, p ∈ unicode_space -> ~ p `prefix_of` l.
Proof.
  rewrite <- not_true_iff_false, existsb_exists. split.
  - intros Hno p Hp Hpre. apply Hno. exists p.
    split; [by apply list_elem_of_In|]. by apply bool_decide_eq_true.
  - intros Hno (p & Hp%list_elem_of_In & Hpre%bool_decide_eq_true).
    by apply (Hno p).
Qed.

Lemma trim_left_space_id l :
  trim_left_space l = l <-> existsb (has_prefix l) unicode_space = false.
Proof.
  rewrite starts_with_space_spec. unfold trim_left_space. split.
  - intros Heq p Hp Hpre.
    apply (trim_front_no_lead _ unicode_space_nonempty 0 l p Hp). by rewrite Heq.
  - apply trim_front_id.
Qed.

(** [l1] occurs in [l2] as a contiguous run. *)
Lemma trim_space_infix l : exists a b, l = a ++ trim_space l ++ b.
Proof.
  unfold trim_space.
  destruct (trim_left_space_suffix l) as [a Ha].
  destruct (trim_right_space_prefix (trim_left_space l)) as [b Hb].
  exists a, b. by rewrite <- Hb.
Qed.

Lemma norm_infix x : exists a b, x = a ++ norm x ++ b.
Proof.
  unfold norm. destruct (trim_space_infix x) as (a & b & Hx).
  destruct (trim_suffix_prefix (trim_space x) ["/"%char]) as [c Hc].
  exists a, (c ++ b). by rewrite (app_assoc _ c b), <- Hc.
Qed.

Lemma Contains_byte_spec s c :
  Contains s (String c EmptyString) = false <-> c ∉ to_bytes s.
Proof.
  unfold Contains. simpl. rewrite <- not_true_iff_false.
  by rewrite contains_byte.
Qed.

(** Without [#] and [?] the two cuts of [getLink] do nothing. *)
Lemma getLink_uncut target :
  Contains target "#" = false -> Contains target "?" = false ->
  to_bytes (getLink target) = norm (to_bytes target).
Proof.
  intros H1 H2. unfold getLink. rewrite H1, H2.
  unfold TrimSuffix, TrimSpace. by rewrite !to_of_bytes.
Qed.

Lemma slash_in_no_space p : p ∈ unicode_space -> "/"%char ∉ p.
Proof.
  revert p. apply Forall_forall.
  apply (bool_decide_unpack (Forall (fun p => "/"%char ∉ p) unicode_space)).
  vm_compute. exact I.
Qed.

End NormalizerFacts.

Lemma getLink_clean (target : string) :
  GoStrings.Contains (getLink target) "#" = false /\
  GoStrings.Contains (getLink target) "?" = false.
Proof.
  destruct (getLink_norm target) as (x & Hx & H1 & H2).
  split; apply Contains_byte_spec; rewrite Hx; intros Hin;
    by apply norm_elem in Hin.
Qed.

(** X1: the normalized link holds neither [#] nor [?]. *)
Theorem getLink_no_fragment_no_query (target : string) :
  GoStrings.Contains (getLink target) "#" = false /\
  GoStrings.Contains (getLink target) "?" = false.
Proof. apply getLink_clean. Qed.

(** X2: the normalized link is a contiguous part of the raw link (nothing is
    rewritten or added, so it is never longer) and it does not start with a
    white space rune. *)
Theorem getLink_is_part_of_target (target : string) :
  (exists before after,
      target = String.append before (String.append (getLink target) after)) /\
  (String.length (getLink target) <= String.length target)%nat /\
  StartsWithSpace (getLink target) = false.
Proof.
  assert (Hcut : forall (s sep : string),
             exists b, to_bytes s = to_bytes (GoStrings.SplitFirst s sep) ++ b).
  { intros s sep. unfold GoStrings.SplitFirst. rewrite to_of_bytes.
    destruct (split_first_prefix (to_bytes s) (to_bytes sep)) as [b Hb]. by exists b. }
  assert (Hinfix : exists a b, to_bytes target = a ++ to_bytes (getLink target) ++ b).
  { unfold getLink.
    set (t1 := if GoStrings.Contains target "#" then _ else _).
    set (t2 := if GoStrings.Contains t1 "?" then _ else _).
    assert (H1 : exists b, to_bytes target = to_bytes t1 ++ b).
    { subst t1. destruct (GoStrings.Contains target "#"); [apply Hcut|].
      exists []. by rewrite app_nil_r. }
    assert (H2 : exists b, to_bytes t1 = to_bytes t2 ++ b).
    { subst t2. destruct (GoStrings.Contains t1 "?"); [apply Hcut|].
      exists []. by rewrite app_nil_r. }
    destruct H1 as [b1 H1], H2 as [b2 H2].
    unfold GoStrings.TrimSuffix, GoStrings.TrimSpace. rewrite !to_of_bytes.
    destruct (norm_infix (to_bytes t2)) as (a & b & Hn). unfold norm in Hn.
    exists a, (b ++ b2 ++ b1). rewrite H1, H2. rewrite Hn at 1.
    by rewrite <- !app_assoc. }
  destruct Hinfix as (a & b & Hab). split; [|split].
  - exists (of_bytes a), (of_bytes b). apply to_bytes_inj.
    by rewrite !to_bytes_app, !to_of_bytes.
  - apply (f_equal length) in Hab. rewrite !length_app in Hab.
    unfold to_bytes in Hab.
    assert (Hlen : forall s, length (list_ascii_of_string s) = String.length s).
    { intros s. induction s; simpl; congruence. }
    rewrite !Hlen in Hab. lia.
  - destruct (getLink_norm target) as (x & Hx & _). unfold StartsWithSpace.
    rewrite Hx. apply starts_with_space_spec. intros p Hp.
    by apply norm_no_leading_space.
Qed.

(** X3: the links that [getLink] leaves as they are are exactly those
    without [#] and [?] that neither start nor end with a white space rune
    and do not end with a slash. *)
Theorem getLink_fixed_point_iff (target : string) :
  getLink target = target <->
  GoStrings.Contains target "#" = false /\
  GoStrings.Contains target "?" = false /\
  StartsWithSpace target = false /\
  GoStrings.EndsWithSpace target = false /\
  GoStrings.HasSuffix target "/" = false.
Proof.
  unfold StartsWithSpace, GoStrings.EndsWithSpace, GoStrings.HasSuffix.
  simpl (to_bytes "/"). split.
  - intros Hfix.
    destruct (getLink_norm target) as (x & Hx & H1 & H2).
    pose proof (getLink_getLink_bytes target x Hx H1 H2) as Hxx.
    rewrite Hfix in Hx. rewrite !Hfix, Hx in Hxx. symmetry in Hxx.
    apply norm_norm in Hxx as [Hs He].
    split; [|split; [|split; [|split]]].
    + apply Contains_byte_spec. rewrite Hx. intros Hin. by apply norm_elem in Hin.
    + apply Contains_byte_spec. rewrite Hx. intros Hin. by apply norm_elem in Hin.
    + rewrite Hx. apply starts_with_space_spec. intros p Hp.
      by apply norm_no_leading_space.
    + by rewrite Hx.
    + by rewrite Hx.
  - intros (H1 & H2 & Hs & He & Hsl). apply to_bytes_inj.
    rewrite (getLink_uncut _ H1 H2). unfold norm, GoStrings.trim_space.
    rewrite (proj2 (trim_left_space_id _) Hs).
    rewrite (proj2 (trim_right_space_id _) He).
    by apply trim_suffix_id.
Qed.

(** X4: [getLink] strips exactly one trailing slash: a link without [#] and
    [?] that does not start with white space comes back as it is when one
    slash is put behind it, also when it ends with a slash itself. *)
Theorem getLink_strips_one_slash (s : string) :
  GoStrings.Contains s "#" = false ->
  GoStrings.Contains s "?" = false ->
  StartsWithSpace s = false ->
  getLink (String.append s "/") = s.
Proof.
  intros H1 H2 Hs.
  assert (Hno : forall c, c <> "/"%char -> c ∉ to_bytes s ->
                          c ∉ to_bytes (String.append s "/")).
  { intros c Hc Hin. rewrite to_bytes_app. simpl (to_bytes "/").
    intros [?|Heq%list_elem_of_singleton]%elem_of_app; [done|]. by apply Hc. }
  apply Contains_byte_spec in H1, H2. apply to_bytes_inj.
  rewrite getLink_uncut; try (apply Contains_byte_spec, Hno; [discriminate|done]).
  rewrite to_bytes_app. simpl (to_bytes "/"). set (x := to_bytes s) in *.
  unfold norm, GoStrings.trim_space.
  assert (Hl : GoStrings.trim_left_space (x ++ ["/"%char]) = x ++ ["/"%char]).
  { apply trim_left_space_id, starts_with_space_spec. intros p Hp [k Hk].
    unfold StartsWithSpace in Hs. fold x in Hs.
    apply (proj1 (starts_with_space_spec x) Hs p Hp).
    destruct (decide (length p <= length x)%nat) as [Hle|Hgt].
    - exists (take (length x - length p) k).
      apply (f_equal (take (length x))) in Hk.
      rewrite take_app_length in Hk. rewrite take_app_ge in Hk by exact Hle.
      exact Hk.
    - exfalso. apply (slash_in_no_space p Hp).
      apply (f_equal (fun l => l !! length x)) in Hk. simpl in Hk.
      rewrite lookup_app_r, Nat.sub_diag in Hk by lia. simpl in Hk.
      rewrite lookup_app_l in Hk by lia.
      symmetry in Hk. by apply list_elem_of_lookup_2 in Hk. }
  rewrite Hl.
  assert (Hr : GoStrings.trim_right_space (x ++ ["/"%char]) = x ++ ["/"%char]).
  { apply trim_right_space_id, ends_with_space_spec.
    intros p (q & -> & Hq)%list_elem_of_fmap Hpre.
    apply suffix_prefix_reverse in Hpre. destruct Hpre as [k Hk].
    destruct q as [|a q _] using rev_ind.
    - by apply (unicode_space_nonempty [] Hq).
    - rewrite app_assoc in Hk. apply app_inj_tail in Hk as [_ <-].
      apply (slash_in_no_space _ Hq). apply elem_of_app. right. by left. }
  rewrite Hr. unfold GoStrings.trim_suffix, GoStrings.has_suffix.
  rewrite (bool_decide_eq_true_2 _ (suffix_app_r _ _ x (reflexivity _))).
  rewrite length_app. simpl. replace (length x + 1 - 1)%nat with (length x) by lia.
  by rewrite take_app_length.
Qed.

Lemma getLink_strips_one_slash_witness :
  getLink "https://x.com/a//" = "https://x.com/a/".
Proof.
  apply (getLink_strips_one_slash "https://x.com/a/"); reflexivity.
Defined.

(** ** Further properties of the helpers *)

Lemma find_spec (list : list string) (query : string) :
  find list query = true <-> query ∈ list.
Proof.
  induction list as [|item rest IH]; simpl.
  - split; [done|by intros ?%elem_of_nil].
  - rewrite elem_of_cons. case_bool_decide as Heq.
    + split; [|done]. intros _. by left.
    + rewrite IH. split; [by right|]. by intros [->|?].
Qed.

(** X5: [find] tells whether the query is an entry of the list, compared as
    a whole string. *)
Theorem find_iff_elem_of (list : list string) (query : string) :
  find list query = true <-> query ∈ list.
Proof. apply find_spec. Qed.

(** X6: [findSuffix] holds exactly when the lower-cased query ends with an
    entry of the list; the entries themselves are taken as they are.  An
    empty entry is a suffix of every query. *)
Theorem findSuffix_iff `{Collaborators} (suffixes : list string) (query : string) :
  (findSuffix suffixes query = true <->
     exists suffix, suffix ∈ suffixes /\
                    GoStrings.HasSuffix (strings_ToLower query) suffix = true) /\
  ("" ∈ suffixes -> findSuffix suffixes query = true).
Proof.
  assert (Hiff : findSuffix suffixes query = true <->
                 exists suffix, suffix ∈ suffixes /\
                   GoStrings.HasSuffix (strings_ToLower query) suffix = true).
  { induction suffixes as [|suffix rest IH]; simpl.
    - split; [done|]. by intros (s & ?%elem_of_nil & _).
    - destruct (GoStrings.HasSuffix _ suffix) eqn:E.
      + split; [|done]. intros _. exists suffix. split; [by left|done].
      + rewrite IH. split.
        * intros (s & Hs & Hsuf). exists s. split; [by right|done].
        * intros (s & [->|Hs]%elem_of_cons & Hsuf); [congruence|by exists s]. }
  split; [exact Hiff|]. intros Hin. apply Hiff. exists "". split; [done|].
  unfold GoStrings.HasSuffix, GoStrings.has_suffix. simpl (to_bytes "").
  apply bool_decide_eq_true, suffix_nil.
Qed.

Section CleanTextFacts.
Import GoStrings.

Lemma has_prefix_cons a l b p :
  has_prefix (a :: l) (b :: p) = bool_decide (a = b) && has_prefix l p.
Proof.
  unfold has_prefix. apply eq_true_iff_eq.
  rewrite andb_true_iff, !bool_decide_eq_true. split.
  - intros Hp. split; [by apply prefix_cons_inv_1 in Hp|by apply prefix_cons_inv_2 in Hp].
  - intros [-> Hp]. by apply prefix_cons.
Qed.

Lemma has_prefix_nil_l b p : has_prefix [] (b :: p) = false.
Proof. unfold has_prefix. apply bool_decide_eq_false. by intros ?%prefix_nil_inv. Qed.

Lemma unicode_Z_nonempty p : p ∈ unicode_Z -> p <> [].
Proof.
  intros Hin ->. revert Hin.
  apply (bool_decide_unpack (~ [] ∈ unicode_Z)). vm_compute. exact I.
Qed.

(** A byte that [collapse_Z] copies is no space: the space is a rune of
    category Z. *)
Lemma leading_Z_None_space a s : leading unicode_Z (a :: s) = None -> a <> " "%char.
Proof.
  intros Hl ->.
  apply (proj1 (leading_None unicode_Z _) Hl [" "%char]).
  - apply (bool_decide_unpack ([" "%char] ∈ unicode_Z)). vm_compute. exact I.
  - apply prefix_cons, prefix_nil.
Qed.

Lemma collapse_Z_spaces in_run skip s :
  contains (collapse_Z in_run skip s) [" "%char; " "%char] = false /\
  (in_run = true -> has_prefix (collapse_Z in_run skip s) [" "%char] = false).
Proof.
  revert in_run skip. induction s as [|a s IH]; intros in_run skip;
    cbn [collapse_Z].
  - cbn [contains]. rewrite !has_prefix_nil_l. by split.
  - destruct skip as [|k]; [|apply IH].
    destruct (leading unicode_Z (a :: s)) as [p|] eqn:El.
    + destruct (IH true (Nat.pred (length p))) as [Hc Hp].
      destruct in_run; cbn [app]; [by split|]. split; [|done].
      cbn [contains]. rewrite has_prefix_cons, (Hp eq_refl), Hc.
      by rewrite andb_false_r.
    + destruct (IH false 0%nat) as [Hc _].
      pose proof (leading_Z_None_space a s El) as Ha.
      cbn [contains].
      rewrite !has_prefix_cons, (bool_decide_eq_false_2 _ Ha).
      split; [exact Hc|done].
Qed.

Lemma collapse_Z_elem (c : ascii) in_run skip s :
  c ∈ collapse_Z in_run skip s -> c = " "%char \/ c ∈ s.
Proof.
  revert in_run skip. induction s as [|a s IH]; intros in_run skip;
    cbn [collapse_Z].
  - by intros ?%elem_of_nil.
  - destruct skip as [|k].
    + destruct (leading unicode_Z (a :: s)) as [p|].
      * intros [Hc|Hc]%elem_of_app.
        -- destruct in_run; [by apply elem_of_nil in Hc|].
           apply list_elem_of_singleton in Hc. by left.
        -- destruct (IH _ _ Hc); [by left|right; by right].
      * intros [->|Hc]%elem_of_cons; [right; by left|].
        destruct (IH _ _ Hc); [by left|right; by right].
    + intros Hc. destruct (IH _ _ Hc); [by left|right; by right].
Qed.

Lemma replace_byte_gone old new s : old <> new -> old ∉ replace_byte old new s.
Proof.
  intros Hne (a & Heq & _)%list_elem_of_fmap. by case_bool_decide; subst.
Qed.

End CleanTextFacts.

(** X7: cleaned text holds no line feed and no two spaces in a row. *)
Theorem cleanText_no_newline_no_double_space (s : string) :
  GoStrings.Contains (cleanText s) (String "010" EmptyString) = false /\
  GoStrings.Contains (cleanText s) "  " = false.
Proof.
  unfold cleanText, GoStrings.ReplaceAllZ, GoStrings.ReplaceAll. split.
  - apply Contains_byte_spec. rewrite !to_of_bytes.
    intros [Hc|Hc]%collapse_Z_elem; [discriminate|].
    by apply replace_byte_gone in Hc.
  - unfold GoStrings.Contains. rewrite !to_of_bytes.
    apply collapse_Z_spaces.
Qed.

Section PreviewFacts.
Context `{Collaborators}.

Lemma scan_elements_find heur texts :
  scan_elements heur texts = List.find (preview_ok heur) (map cleanText texts).
Proof.
  induction texts as [|t texts IH]; cbn [scan_elements map List.find]; [done|].
  unfold preview_ok at 1. by destruct (_ && _ && _).
Qed.

Lemma find_app_first {A} (f : A -> bool) l1 l2 :
  List.find f (l1 ++ l2)
  = match List.find f l1 with Some x => Some x | None => List.find f l2 end.
Proof. induction l1 as [|a l1 IH]; simpl; [done|]. by destruct (f a). Qed.

End PreviewFacts.

Lemma QueryLoop_find `{Collaborators}
  (heur queries : list string) (e : HTMLElement) :
  QueryLoop heur queries e
  = List.find (preview_ok heur) (preview_candidates queries e).
Proof.
  unfold preview_candidates.
  induction queries as [|q queries IH]; simpl; [done|].
  by rewrite find_app_first, <- scan_elements_find, IH.
Qed.

(** X8: the labelled loop of the body callback picks the first paragraph
    that passes the test of lines 176-177, going through the queries in
    their order and through the first four elements of each; elements from
    the fifth on are never looked at. *)
Theorem QueryLoop_first_candidate `{Collaborators}
  (heur queries : list string) (e : HTMLElement) :
  QueryLoop heur queries e
  = List.find (preview_ok heur) (preview_candidates queries e).
Proof. apply QueryLoop_find. Qed.

(** ** Further properties of the callbacks *)

Section CallbackFacts.
Context `{Collaborators}.

Lemma emitted_app st st' new : stdout st' = stdout st ++ new -> emitted st st' = new.
Proof. unfold emitted. intros ->. by rewrite drop_app_length. Qed.

Lemma enqueued_app st st' new : queue st' = queue st ++ new -> enqueued st st' = new.
Proof. unfold enqueued. intros ->. by rewrite drop_app_length. Qed.

(** The lines that [collectHeadingText] prints, with the map of [st]. *)
Lemma collectHeadingText_stdout heading e st :
  let st' := collectHeadingText heading e st in
  linkDepths st' = linkDepths st /\ queue st' = queue st /\
  stdout st'
  = stdout st ++
    map (fun t => mkLine heading (cleanText t) (URL_String (Request_URL e))
                         (depth_of st (URL_String (Request_URL e))))
        (List.filter (fun t => GoStrings.len t <? 500) (ChildTexts e heading)).
Proof.
  unfold collectHeadingText. generalize (ChildTexts e heading). intros texts.
  revert st. induction texts as [|t texts IH]; intros st; simpl.
  - by rewrite app_nil_r.
  - destruct (GoStrings.len t <? 500); simpl.
    + destruct (IH (report heading (cleanText t) e st)) as (Hd & Hq & Ho).
      split; [done|]. split; [done|]. rewrite Ho. simpl.
      by rewrite <- app_assoc.
    + apply IH.
Qed.

End CallbackFacts.

(** X9: [collectHeadingText] prints one line for each heading text shorter
    than 500 bytes, in document order, with the cleaned text; longer ones
    are left out.  It queues nothing. *)
Theorem collectHeadingText_lines `{Collaborators}
  (heading : string) (e : HTMLElement) (st : CrawlState) :
  emitted st (collectHeadingText heading e st)
  = map (fun t => mkLine heading (cleanText t) (URL_String (Request_URL e))
                         (depth_of st (URL_String (Request_URL e))))
        (List.filter (fun t => GoStrings.len t <? 500) (ChildTexts e heading)) /\
  enqueued st (collectHeadingText heading e st) = [].
Proof.
  destruct (collectHeadingText_stdout heading e st) as (_ & Hq & Ho). split.
  - by apply emitted_app.
  - apply enqueued_app. by rewrite app_nil_r.
Qed.

Section BodyFacts.
Context `{Collaborators}.

Lemma report_fields k text e st :
  linkDepths (report k text e st) = linkDepths st /\
  queue (report k text e st) = queue st /\
  stdout (report k text e st)
  = stdout st ++ [mkLine k text (URL_String (Request_URL e))
                         (depth_of st (URL_String (Request_URL e)))].
Proof. done. Qed.

Lemma depth_of_same st st' k : linkDepths st' = linkDepths st -> depth_of st' k = depth_of st k.
Proof. unfold depth_of. by intros ->. Qed.

End BodyFacts.

Lemma OnBody_stdout `{Collaborators} (pol : Policy) (e : HTMLElement) (st : CrawlState) :
  let url := URL_String (Request_URL e) in
  let line := fun k text => mkLine k text url (depth_of st url) in
  let first_p := cleanText (hd "" (DOM_Find e "p")) in
  let headings := fun h =>
    map (fun t => line h (cleanText t))
        (List.filter (fun t => GoStrings.len t <? 500) (ChildTexts e h)) in
  emitted st (OnBody pol e st)
  = match QueryLoop (heuristics pol) (previewQueries pol) e with
    | Some paragraph => [line "para" paragraph]
    | None => []
    end
    ++ (if (GoStrings.len first_p <? 1500) && (0 <? GoStrings.len first_p)
        then [line "para-just-p" first_p] else [])
    ++ headings "h1" ++ headings "h2" ++ headings "h3" /\
  enqueued st (OnBody pol e st) = [].
Proof.
  intros url line first_p headings. unfold OnBody. cbv zeta.
  fold first_p.
  set (st1 := match QueryLoop _ _ e with Some p => report "para" p e st | None => st end).
  set (st2 := if _ && _ then report "para-just-p" first_p e st1 else st1).
  assert (H1 : linkDepths st1 = linkDepths st /\ queue st1 = queue st /\
               stdout st1 = stdout st ++
                 match QueryLoop (heuristics pol) (previewQueries pol) e with
                 | Some paragraph => [line "para" paragraph]
                 | None => []
                 end).
  { subst st1. destruct (QueryLoop _ _ e); [done|]. by rewrite app_nil_r. }
  destruct H1 as (Hd1 & Hq1 & Ho1).
  assert (H2 : linkDepths st2 = linkDepths st /\ queue st2 = queue st /\
               stdout st2 = stdout st1 ++
                 (if (GoStrings.len first_p <? 1500) && (0 <? GoStrings.len first_p)
                  then [line "para-just-p" first_p] else [])).
  { subst st2. destruct (_ && _).
    - split; [done|]. split; [done|]. simpl. unfold line, url.
      by rewrite (depth_of_same st st1 _ Hd1).
    - by rewrite app_nil_r. }
  destruct H2 as (Hd2 & Hq2 & Ho2).
  destruct (collectHeadingText_stdout "h1" e st2) as (Hd3 & Hq3 & Ho3).
  set (st3 := collectHeadingText "h1" e st2) in *.
  destruct (collectHeadingText_stdout "h2" e st3) as (Hd4 & Hq4 & Ho4).
  set (st4 := collectHeadingText "h2" e st3) in *.
  destruct (collectHeadingText_stdout "h3" e st4) as (Hd5 & Hq5 & Ho5).
  cbv zeta in *. split.
  - apply emitted_app. rewrite Ho5, Ho4, Ho3, Ho2, Ho1.
    rewrite (depth_of_same st st2), (depth_of_same st st3), (depth_of_same st st4)
      by congruence.
    by rewrite <- !app_assoc.
  - apply enqueued_app. rewrite app_nil_r. congruence.
Qed.

(** X10: the body callback prints, in this order, at most one "para" (the
    paragraph that [QueryLoop] picks), at most one "para-just-p" (the first
    [p] of the page, when its cleaned text has between 1 and 1499 bytes,
    whether or not a "para" was printed), and the headings of levels 1, 2
    and 3.  It queues nothing. *)
Theorem OnBody_lines `{Collaborators} (pol : Policy) (e : HTMLElement) (st : CrawlState) :
  let url := URL_String (Request_URL e) in
  let line := fun k text => mkLine k text url (depth_of st url) in
  let first_p := cleanText (hd "" (DOM_Find e "p")) in
  let headings := fun h =>
    map (fun t => line h (cleanText t))
        (List.filter (fun t => GoStrings.len t <? 500) (ChildTexts e h)) in
  emitted st (OnBody pol e st)
  = match QueryLoop (heuristics pol) (previewQueries pol) e with
    | Some paragraph => [line "para" paragraph]
    | None => []
    end
    ++ (if (GoStrings.len first_p <? 1500) && (0 <? GoStrings.len first_p)
        then [line "para-just-p" first_p] else [])
    ++ headings "h1" ++ headings "h2" ++ headings "h3" /\
  enqueued st (OnBody pol e st) = [].
Proof. apply OnBody_stdout. Qed.

(** C10: the callback on links returns at once, printing and queueing
    nothing, when the status of the response is at least 400 or at most 100.
    The callbacks of [handleIndexing] never look at the status: on a
    response with any status [code] they print the keywords, the
    description and the og:description (when between 1 and 1499 bytes), the
    language (between 1 and 99 bytes), the title, and for the body the
    preview paragraphs and the headings, as they stand in the element. *)
Theorem status_gates_links_only `{Collaborators}
  (pol : Policy) (e : HTMLElement) (st : CrawlState) (code : Z) :
  let e' := with_status code e in
  let url := URL_String (Request_URL e) in
  let line := fun k text => mkLine k text url (depth_of st url) in
  let content := cleanText (Attr e "content") in
  let lang := cleanText (Attr e "lang") in
  let first_p := cleanText (hd "" (DOM_Find e "p")) in
  let headings := fun h =>
    map (fun t => line h (cleanText t))
        (List.filter (fun t => GoStrings.len t <? 500) (ChildTexts e h)) in
  (code >= 400 \/ code <= 100 ->
     OnLink pol e' st = st /\
     emitted st (callback pol on_a_href e' st) = [] /\
     enqueued st (callback pol on_a_href e' st) = []) /\
  emitted st (callback pol on_keywords e' st) = [line "keywords" content] /\
  emitted st (callback pol on_description e' st)
  = (if (0 <? GoStrings.len content) && (GoStrings.len content <? 1500)
     then [line "desc" content] else []) /\
  emitted st (callback pol on_og_description e' st)
  = (if (0 <? GoStrings.len content) && (GoStrings.len content <? 1500)
     then [line "og-desc" content] else []) /\
  emitted st (callback pol on_lang e' st)
  = (if (0 <? GoStrings.len lang) && (GoStrings.len lang <? 100)
     then [line "lang" lang] else []) /\
  emitted st (callback pol on_title e' st) = [line "title" (cleanText (Text e))] /\
  emitted st (callback pol on_body e' st)
  = match QueryLoop (heuristics pol) (previewQueries pol) e with
    | Some paragraph => [line "para" paragraph]
    | None => []
    end
    ++ (if (GoStrings.len first_p <? 1500) && (0 <? GoStrings.len first_p)
        then [line "para-just-p" first_p] else [])
    ++ headings "h1" ++ headings "h2" ++ headings "h3".
Proof.
  intros e' url line content lang first_p headings.
  split; [|split; [|split; [|split; [|split; [|split]]]]].
  - intros Hcode.
    assert (Hst : OnLink pol e' st = st).
    { unfold OnLink. cbn [e' with_status Response_StatusCode].
      destruct (400 <=? code) eqn:E1; [done|].
      destruct (code <=? 100) eqn:E2; [done|].
      apply Z.leb_gt in E1, E2. lia. }
    cbn [callback]. rewrite Hst. split; [done|].
    split; [apply emitted_refl|apply enqueued_refl].
  - apply emitted_report.
  - cbn [callback]. unfold OnDescription. cbn [e' with_status Attr]. fold content.
    destruct (_ && _); [apply emitted_report|apply emitted_refl].
  - cbn [callback]. unfold OnOgDescription. cbn [e' with_status Attr]. fold content.
    destruct (_ && _); [apply emitted_report|apply emitted_refl].
  - cbn [callback]. unfold OnLang. cbn [e' with_status Attr]. fold lang.
    destruct (_ && _); [apply emitted_report|apply emitted_refl].
  - apply emitted_report.
  - cbn [callback]. unfold e'. rewrite OnBody_with_status.
    apply (OnBody_stdout pol e st).
Qed.

Lemma status_gates_links_only_witness :
  let pol := shared_policy [] in
  let st := mkCrawl ∅ [] [] in
  let line := fun k text => mkLine k text "https://shared.example/~alice" 0 in
  Response_StatusCode error_page = 404 /\
  @OnLink plain pol error_page st = st /\
  emitted st (@callback plain pol on_keywords error_page st)
  = [line "keywords" "page not found"] /\
  emitted st (@callback plain pol on_description error_page st)
  = [line "desc" "page not found"] /\
  emitted st (@callback plain pol on_og_description error_page st)
  = [line "og-desc" "page not found"] /\
  emitted st (@callback plain pol on_lang error_page st) = [line "lang" "en"] /\
  emitted st (@callback plain pol on_title error_page st) = [line "title" "Not Found"] /\
  emitted st (@callback plain pol on_body error_page st)
  = [line "para" "The page you asked for is not here.";
     line "para-just-p" "The page you asked for is not here.";
     line "h1" "404"].
Proof.
  intros pol st line.
  destruct (@status_gates_links_only plain pol error_page st 404)
    as (Hlink & Hk & Hd & Ho & Hl & Ht & Hb).
  split; [reflexivity|].
  split; [apply Hlink; left; lia|].
  split; [exact Hk|]. split; [exact Hd|]. split; [exact Ho|].
  split; [exact Hl|]. split; [exact Ht|exact Hb].
Defined.

Section QueueFacts.
Context `{Collaborators}.

Lemma log_link_stdout pol e link u st :
  exists new, stdout (log_link pol e link u st) = stdout st ++ new /\
              (length new <= 1)%nat.
Proof.
  unfold log_link.
  repeat match goal with |- context [if ?b then _ else _] => destruct b end;
    first [ exists []; rewrite app_nil_r; split; [done|simpl; lia]
          | eexists; split; [reflexivity|simpl; lia] ].
Qed.

(** What one call of the callback on links does to the queue and to the
    output, whatever the element. *)
Lemma OnLink_effect pol e st :
  let link := Request_AbsoluteURL e (getLink (Attr e "href")) in
  (exists new, stdout (OnLink pol e st) = stdout st ++ new /\ (length new <= 1)%nat) /\
  (queue (OnLink pol e st) = queue st \/ queue (OnLink pol e st) = queue st ++ [link]).
Proof.
  intros link.
  assert (Hnone : (exists new, stdout st = stdout st ++ new /\ (length new <= 1)%nat) /\
                  (queue st = queue st \/ queue st = queue st ++ [link])).
  { split; [|by left]. exists []. split; [by rewrite app_nil_r|simpl; lia]. }
  unfold OnLink.
  destruct (_ || _); [exact Hnone|].
  destruct (findSuffix _ _); [exact Hnone|].
  fold link.
  destruct (url_Parse link) as [u|]; [|exact Hnone].
  cbv zeta. fold (log_link pol e link u st).
  destruct (log_link_stdout pol e link u st) as (new & Hnew & Hlen).
  pose proof (log_link_queue pol e link u st) as Hq.
  repeat match goal with |- context [if ?b then _ else _] => destruct b end;
    (split; [by exists new|]); simpl; rewrite ?Hq; auto.
Qed.

End QueueFacts.

(** X11: only the callback on links queues, and one call queues at most one
    URL, the absolute form of the normalized [href]; the callbacks of
    [handleIndexing] leave the queue as it is.  One call on a link prints at
    most one line. *)
Theorem callbacks_queue `{Collaborators}
  (pol : Policy) (cb : Callback) (e : HTMLElement) (st : CrawlState) :
  (enqueued st (callback pol cb e st) = [] \/
   (cb = on_a_href /\
    enqueued st (callback pol cb e st)
    = [Request_AbsoluteURL e (getLink (Attr e "href"))])) /\
  queue (callback pol cb e st) = queue st ++ enqueued st (callback pol cb e st) /\
  (cb = on_a_href -> (length (emitted st (callback pol cb e st)) <= 1)%nat).
Proof.
  assert (Hsame : forall st', queue st' = queue st ->
            (enqueued st st' = [] \/
             (cb = on_a_href /\
              enqueued st st' = [Request_AbsoluteURL e (getLink (Attr e "href"))])) /\
            queue st' = queue st ++ enqueued st st').
  { intros st' Hq. rewrite (enqueued_app st st' []) by (by rewrite app_nil_r).
    split; [by left|by rewrite app_nil_r]. }
  destruct cb; cbn [callback].
  - destruct (OnLink_effect pol e st) as [(new & Hnew & Hlen) Hq]. cbv zeta in Hq.
    split; [|split].
    + destruct Hq as [Hq|Hq]; [by apply Hsame|].
      right. split; [done|]. by apply enqueued_app.
    + destruct Hq as [Hq|Hq]; [by apply Hsame|].
      by rewrite (enqueued_app _ _ _ Hq).
    + intros _. by rewrite (emitted_app _ _ _ Hnew).
  - destruct (Hsame (OnKeywords e st)); [done|]. by split; [|split].
  - destruct (Hsame (OnDescription e st)) as [? ?].
    { unfold OnDescription. cbv zeta. by destruct (_ && _). }
    by split; [|split].
  - destruct (Hsame (OnOgDescription e st)) as [? ?].
    { unfold OnOgDescription. cbv zeta. by destruct (_ && _). }
    by split; [|split].
  - destruct (Hsame (OnLang e st)) as [? ?].
    { unfold OnLang. cbv zeta. by destruct (_ && _). }
    by split; [|split].
  - destruct (Hsame (OnTitle e st)); [done|]. by split; [|split].
  - destruct (OnBody_stdout pol e st) as [_ Hq]. cbv zeta in Hq.
    assert (Hqueue : queue (OnBody pol e st) = queue st).
    { unfold enqueued in Hq.
      assert (Hpre : exists new, queue (OnBody pol e st) = queue st ++ new).
      { unfold OnBody. cbv zeta.
        repeat match goal with
               | |- context [collectHeadingText ?h e ?s] =>
                   let Hq := fresh in
                   destruct (collectHeadingText_stdout h e s) as (_ & Hq & _);
                   cbv zeta in Hq; rewrite Hq; clear Hq
               end.
        destruct (_ && _), (QueryLoop _ _ e); exists []; by rewrite app_nil_r. }
      destruct Hpre as [new Hnew]. rewrite Hnew, drop_app_length in Hq.
      by rewrite Hnew, Hq, app_nil_r. }
    destruct (Hsame (OnBody pol e st) Hqueue). by split; [|split].
Qed.

Lemma OnLink_dropped `{Collaborators} (pol : Policy) (e : HTMLElement) (st : CrawlState) :
  findSuffix (SUFFIXES pol) (getLink (Attr e "href")) = true \/
  url_Parse (Request_AbsoluteURL e (getLink (Attr e "href"))) = None ->
  OnLink pol e st = st.
Proof.
  intros Hdrop. unfold OnLink. destruct (_ || _); [done|].
  destruct Hdrop as [Hs|Hp]; [by rewrite Hs|].
  destruct (findSuffix _ _); [done|]. by rewrite Hp.
Qed.

(** X12: a link whose normalized form has a banned suffix, or whose
    absolute form does not parse, is dropped: the callback prints nothing
    and queues nothing, whatever the status. *)
Theorem OnLink_drops `{Collaborators} (pol : Policy) (e : HTMLElement) (st : CrawlState) :
  findSuffix (SUFFIXES pol) (getLink (Attr e "href")) = true \/
  url_Parse (Request_AbsoluteURL e (getLink (Attr e "href"))) = None ->
  OnLink pol e st = st.
Proof. apply OnLink_dropped. Qed.

Lemma OnLink_drops_witness :
  let e := link_element alice_home "https://shared.example/~alice/paper.PDF" 200 in
  let st := mkCrawl ∅ [] [] in
  @OnLink plain (shared_policy []) e st = st.
Proof.
  intros e st. apply (@OnLink_drops plain). left. reflexivity.
Defined.

(** X13: for a link that reaches the classification and is not boring, the
    record "non-webring-link" is printed, and nothing else, when the domain
    of the link is no ring domain, whatever the page it stands on. *)
Theorem non_webring_link_emitted `{Collaborators}
  (pol : Policy) (e : HTMLElement) (link : string) (u : URL) (st : CrawlState) :
  classified pol e link u ->
  util_Contains (boringWords pol) link = false ->
  util_Contains (boringDomains pol) link = false ->
  find (domains pol) (Hostname u) = false ->
  emitted st (OnLink pol e st)
  = [mkLine "non-webring-link" link (URL_String (Request_URL e))
            (depth_of st (URL_String (Request_URL e)))].
Proof.
  intros Hc Hw Hd Hring. rewrite (OnLink_emitted pol e link u st Hc).
  unfold log_link. rewrite Hw, Hd, Hring. simpl. apply emitted_report.
Qed.

Lemma non_webring_link_emitted_witness :
  let pol := mkPolicy [] ["a.example"] [] "root.example" [] [] ["p"] [] in
  let e := link_element (mkURL "a.example" "/post" "https://a.example/post")
                        "https://outside.example/x" 200 in
  let st := mkCrawl ∅ [] [] in
  emitted st (@OnLink plain pol e st)
  = [mkLine "non-webring-link" "https://outside.example/x" "https://a.example/post" 0].
Proof.
  intros pol e st.
  apply (@non_webring_link_emitted plain pol e "https://outside.example/x"
           (mkURL "outside.example" "/x" "https://outside.example/x") st);
    [repeat split; vm_compute; congruence|reflexivity..].
Defined.

(** X14: a link that [util.Contains] finds in the boring words or in the
    boring domains is not logged: the callback prints nothing for it. *)
Theorem boring_link_silent `{Collaborators}
  (pol : Policy) (e : HTMLElement) (link : string) (u : URL) (st : CrawlState) :
  classified pol e link u ->
  util_Contains (boringWords pol) link = true \/
  util_Contains (boringDomains pol) link = true ->
  emitted st (OnLink pol e st) = [].
Proof.
  intros Hc Hb. rewrite (OnLink_emitted pol e link u st Hc). unfold log_link.
  destruct Hb as [-> | ->]; simpl; [|rewrite andb_false_r]; apply emitted_refl.
Qed.

Lemma boring_link_silent_witness :
  let pol := mkPolicy [] ["a.example"] [] "root.example"
                      [] ["https://outside.example/x"] ["p"] [] in
  let e := link_element (mkURL "a.example" "/post" "https://a.example/post")
                        "https://outside.example/x" 200 in
  let st := mkCrawl ∅ [] [] in
  emitted st (@OnLink plain pol e st) = [].
Proof.
  intros pol e st.
  apply (@boring_link_silent plain pol e "https://outside.example/x"
           (mkURL "outside.example" "/x" "https://outside.example/x") st);
    [repeat split; vm_compute; congruence|left; reflexivity].
Defined.

(** X15: logging does not gate queueing: whether the callback queues a link
    depends on the banned suffixes and the pathsites only, not on the ring
    domains, the boring lists, the initial domain, the depth map or what was
    printed and queued before. *)
Theorem enqueue_independent_of_logging `{Collaborators}
  (pol pol' : Policy) (e : HTMLElement) (st st' : CrawlState) :
  SUFFIXES pol = SUFFIXES pol' ->
  pathsites pol = pathsites pol' ->
  enqueued st (OnLink pol e st) = enqueued st' (OnLink pol' e st').
Proof.
  intros Hs Hp.
  destruct (decide (100 < Response_StatusCode e < 400)) as [Hcode|Hcode].
  - destruct (findSuffix (SUFFIXES pol) (getLink (Attr e "href"))) eqn:Hsuf.
    + rewrite !OnLink_dropped; [by rewrite !enqueued_refl|left; by rewrite <- Hs|by left].
    + destruct (url_Parse (Request_AbsoluteURL e (getLink (Attr e "href"))))
        as [u|] eqn:Hparse.
      * set (link := Request_AbsoluteURL e (getLink (Attr e "href"))) in *.
        rewrite (OnLink_enqueued pol e link u st), (OnLink_enqueued pol' e link u st');
          [by rewrite Hp|repeat split; (lia || done || by rewrite <- Hs)..].
      * rewrite !OnLink_dropped; [by rewrite !enqueued_refl|by right..].
  - assert (Hbad : (400 <=? Response_StatusCode e) || (Response_StatusCode e <=? 100) = true).
    { apply orb_true_iff. rewrite !Z.leb_le. lia. }
    unfold OnLink. rewrite Hbad. by rewrite !enqueued_refl.
Qed.

Lemma enqueue_independent_of_logging_witness :
  let e := link_element alice_home "https://shared.example/~alice/page2" 200 in
  enqueued (mkCrawl ∅ [] [])
           (@OnLink plain (shared_policy ["https://shared.example/~alice"]) e (mkCrawl ∅ [] []))
  = enqueued (mkCrawl ∅ ["https://x.example"] [])
             (@OnLink plain
                (mkPolicy [".pdf"] [] ["https://shared.example/~alice"] "" []
                          ["https://shared.example/~alice/page2"] [] [])
                e (mkCrawl ∅ ["https://x.example"] [])).
Proof.
  intros e. apply (@enqueue_independent_of_logging plain); reflexivity.
Defined.

(** X16: a link without a host (its URL parses with an empty hostname, as
    for mailto links) is held against the first pathsite of the list, the
    empty string being contained in every string: it is queued only if it
    starts with that pathsite. *)
Theorem hostless_link_meets_first_pathsite `{Collaborators}
  (pol : Policy) (e : HTMLElement) (link : string) (u : URL) (st : CrawlState)
  (s : string) (rest : list string) :
  classified pol e link u ->
  Hostname u = "" ->
  pathsites pol = s :: rest -> s <> "" ->
  enqueued st (OnLink pol e st)
  = if GoStrings.HasPrefix link s then [link] else [].
Proof.
  intros Hc Hhost Hps Hne. rewrite (OnLink_enqueued pol e link u st Hc). cbv zeta.
  rewrite Hps, Hhost. simpl.
  assert (Hcontains : GoStrings.Contains s "" = true).
  { unfold GoStrings.Contains. simpl (to_bytes "").
    assert (Hp : forall l, GoStrings.has_prefix l [] = true).
    { intros l. apply bool_decide_eq_true, prefix_nil. }
    destruct (to_bytes s); cbn [GoStrings.contains]; by rewrite Hp. }
  rewrite Hcontains. by rewrite (bool_decide_eq_true_2 _ Hne).
Qed.

Lemma hostless_link_meets_first_pathsite_witness :
  let C := {| url_Parse := mail_Parse;
              strings_ToLower := @strings_ToLower plain;
              util_Contains := exact_Contains |} in
  let e := link_element alice_home "mailto:alice@shared.example" 200 in
  enqueued (mkCrawl ∅ [] [])
    (@OnLink C (shared_policy ["https://shared.example/~alice"]) e (mkCrawl ∅ [] []))
  = [].
Proof.
  intros C e.
  apply (@hostless_link_meets_first_pathsite C
           (shared_policy ["https://shared.example/~alice"]) e
           "mailto:alice@shared.example" (mkURL "" "" "mailto:alice@shared.example")
           (mkCrawl ∅ [] []) "https://shared.example/~alice" []);
    [repeat split; vm_compute; congruence|reflexivity|reflexivity|discriminate].
Defined.

(** ** The seeds *)

Section SeedFacts.
Context `{Collaborators}.

Lemma seed_None links depths i st :
  seed links depths i st = None <-> (length (drop i depths) < length links)%nat.
Proof.
  revert i st. induction links as [|l links IH]; intros i st; simpl.
  - split; [done|lia].
  - destruct (depths !! i) as [d|] eqn:E.
    + rewrite IH, (drop_S _ _ _ E). simpl. lia.
    + apply lookup_ge_None in E. rewrite length_drop. split; [lia|done].
Qed.

Lemma seed_queue links depths i st st' :
  seed links depths i st = Some st' ->
  queue st' = queue st ++ links /\ stdout st' = stdout st.
Proof.
  revert i st. induction links as [|l links IH]; intros i st; simpl.
  - intros [= <-]. by rewrite app_nil_r.
  - destruct (depths !! i) as [d|]; [|done]. intros Hs.
    apply IH in Hs as [Hq Ho]. simpl in Hq, Ho.
    split; [|done]. by rewrite Hq, <- app_assoc.
Qed.

Lemma getDomains_domains (links : list string) :
  (getDomains links).1 = omap (fun l => Hostname <$> url_Parse l) links.
Proof.
  induction links as [|x links IH] using rev_ind; [done|].
  rewrite getDomains_step, omap_app. simpl.
  destruct (url_Parse x) as [u|]; simpl; by rewrite IH, ?app_nil_r.
Qed.

End SeedFacts.

(** X17: the loop over the seeds panics exactly when there are fewer depths
    than links; otherwise it puts the links into the queue in their order,
    behind what is there, and prints nothing. *)
Theorem seed_bounds (links : list string) (depths : list Z) (st : CrawlState) :
  (seed links depths 0 st = None <-> (length depths < length links)%nat) /\
  (forall st', seed links depths 0 st = Some st' ->
               queue st' = queue st ++ links /\ stdout st' = stdout st).
Proof.
  split.
  - by rewrite seed_None, drop_0.
  - intros st'. apply seed_queue.
Qed.

(** X19: [getDomains] gives the hostnames of the links that parse, in the
    order of the links and with repetitions, and as pathsites the links that
    parse with a path that is not empty; links that do not parse are
    skipped in both. *)
Theorem getDomains_result `{Collaborators} (links : list string) :
  getDomains links
  = (omap (fun l => Hostname <$> url_Parse l) links,
     List.filter (fun l => match url_Parse l with
                           | Some u => bool_decide (Path u <> "")
                           | None => false
                           end) links).
Proof.
  rewrite (surjective_pairing (getDomains links)). f_equal.
  - apply getDomains_domains.
  - rewrite getDomains_pathsites_order. apply List.filter_ext. intros l.
    destruct (url_Parse l) as [u|]; [|done].
    apply eq_true_iff_eq. rewrite is_pathsite_spec. by rewrite bool_decide_eq_true.
Qed.

Section WebringFacts.
Context `{Collaborators} `{Schemes}.

Lemma split_on_nonempty sep skip s : split_on sep skip s <> [].
Proof.
  revert skip. induction s as [|a s IH]; intros skip; simpl; [done|].
  destruct skip as [|k]; [|apply IH].
  destruct (GoStrings.has_prefix _ _); [done|].
  by destruct (split_on sep 0 s).
Qed.

Lemma strings_Split_first s sep : is_Some (strings_Split s sep !! 0%nat).
Proof.
  unfold strings_Split. pose proof (split_on_nonempty (to_bytes sep) 0 (to_bytes s)).
  destruct (split_on _ _ _); [done|]. simpl. by eexists.
Qed.

Lemma strconv_Atoi_range s z : strconv_Atoi s = Some z -> int_range z.
Proof.
  unfold strconv_Atoi, int_range.
  match goal with
  | |- context [let '(_, _) := ?m in _] => destruct m as [neg ds]
  end.
  destruct ds as [|d ds]; [done|].
  destruct (digits_value 0 (d :: ds)) as [n|]; [|done].
  destruct (_ && _) eqn:E; [|done]. intros [= <-].
  apply andb_true_iff in E as [E1 E2]. apply Z.leb_le in E1. apply Z.ltb_lt in E2.
  lia.
Qed.

(** One pass of the loop of [getWebringLinks] on a line. *)
Lemma getWebringLinks_loop_cons l rest links depths :
  getWebringLinks_loop (l :: rest) links depths
  = match seed_link l with
    | None => getWebringLinks_loop rest links depths
    | Some link =>
        match seed_depth l with
        | None => None
        | Some depth => getWebringLinks_loop rest (links ++ [link]) (depths ++ [depth])
        end
    end.
Proof.
  simpl. unfold seed_link, seed_depth.
  destruct (strings_Split_first l " ") as [v0 Hv0]. rewrite Hv0.
  destruct (url_Parse v0) as [u|]; [|done].
  by destruct (strings_Split l " " !! 1%nat).
Qed.

Lemma getWebringLinks_loop_Some candidates links depths links' depths' :
  getWebringLinks_loop candidates links depths = Some (links', depths') ->
  exists newd,
    links' = links ++ omap seed_link candidates /\
    depths' = depths ++ newd /\
    length newd = length (omap seed_link candidates) /\
    Forall int_range newd.
Proof.
  revert links depths. induction candidates as [|l rest IH]; intros links depths.
  - simpl. intros [= <- <-]. exists []. by rewrite !app_nil_r.
  - rewrite getWebringLinks_loop_cons. simpl.
    destruct (seed_link l) as [link|]; [|apply IH].
    destruct (seed_depth l) as [depth|] eqn:Hd; [|done].
    intros Hloop. apply IH in Hloop as (newd & -> & -> & Hlen & Hrange).
    exists (depth :: newd). rewrite <- !app_assoc. simpl.
    split; [done|]. split; [done|]. split; [by rewrite Hlen|].
    constructor; [|done]. unfold seed_depth in Hd.
    destruct (strings_Split l " " !! 1%nat); [|done].
    by apply strconv_Atoi_range in Hd.
Qed.

Lemma getWebringLinks_loop_None candidates links depths :
  getWebringLinks_loop candidates links depths = None <->
  exists l, l ∈ candidates /\ is_Some (seed_link l) /\ seed_depth l = None.
Proof.
  revert links depths. induction candidates as [|l rest IH]; intros links depths.
  - simpl. split; [done|]. by intros (l & ?%elem_of_nil & _).
  - rewrite getWebringLinks_loop_cons.
    destruct (seed_link l) as [link|] eqn:Hl.
    + destruct (seed_depth l) as [depth|] eqn:Hd.
      * rewrite IH. split.
        -- intros (l' & Hin & Hrest). exists l'. split; [by right|done].
        -- intros (l' & [->|Hin]%elem_of_cons & Hsome & Hnone); [congruence|].
           by exists l'.
      * split; [|done]. intros _. exists l. split; [by left|]. by rewrite Hl.
    + rewrite IH. split.
      * intros (l' & Hin & Hrest). exists l'. split; [by right|done].
      * intros (l' & [->|Hin]%elem_of_cons & Hsome & Hnone).
        -- rewrite Hl in Hsome. by destruct Hsome.
        -- by exists l'.
Qed.

End WebringFacts.

(** X20: [getWebringLinks] panics exactly when some line whose first field
    parses as a URL has no second field or one that is no decimal [int];
    lines whose first field does not parse are skipped.  Otherwise it
    returns one link and one depth for each remaining line, in order: the two
    lists have the same length and every depth is an [int]. *)
Theorem getWebringLinks_result `{Collaborators} `{Schemes} (candidates : list string) :
  (getWebringLinks candidates = None <->
     exists l, l ∈ candidates /\ is_Some (seed_link l) /\ seed_depth l = None) /\
  (forall links depths, getWebringLinks candidates = Some (links, depths) ->
     links = omap seed_link candidates /\
     length depths = length links /\
     Forall int_range depths).
Proof.
  unfold getWebringLinks. split; [apply getWebringLinks_loop_None|].
  intros links depths Hloop.
  apply getWebringLinks_loop_Some in Hloop as (newd & -> & -> & Hlen & Hrange).
  by simpl.
Qed.

(** X18: [Crawl] stops before the run exactly when the proxy URL does not
    parse or [getWebringLinks] panics, that is, when some seed line whose
    first field parses as a URL has no second field or one that is no
    decimal [int]; the loop over the seeds of lines 338-341 never panics.
    Otherwise the queue holds the seed links in their order, nothing is
    printed yet, the ring domains and the pathsites are those of
    [getDomains], and there is at least one preview query. *)
Theorem Crawl_setup_result `{Collaborators} `{Schemes} (config : Config) :
  (Crawl_setup config = None <->
     SetupDefaultProxy config = false \/
     exists l, l ∈ Crawler_Webring config /\ is_Some (seed_link l) /\ seed_depth l = None) /\
  (forall pol st0, Crawl_setup config = Some (pol, st0) ->
     let links := omap seed_link (Crawler_Webring config) in
     queue st0 = links /\ stdout st0 = [] /\
     domains pol = (getDomains links).1 /\
     pathsites pol = (getDomains links).2 /\
     previewQueries pol <> []).
Proof.
  unfold Crawl_setup, getWebringLinks.
  pose proof (getWebringLinks_loop_None (Crawler_Webring config) [] []) as Hnone.
  destruct (SetupDefaultProxy config); simpl.
  - destruct (getWebringLinks_loop _ [] []) as [[links depths]|] eqn:Hloop.
    + apply getWebringLinks_loop_Some in Hloop as (newd & Hl & Hd & Hlen & _).
      simpl in Hl, Hd. subst links depths.
      destruct (getDomains _) as [ds ps] eqn:Hg.
      destruct (seed _ newd 0 _) as [st|] eqn:Hseed.
      * split.
        -- split; [done|]. intros [?|Hbad]; [done|]. by apply Hnone in Hbad.
        -- intros pol st0 [= <- <-]. apply seed_queue in Hseed as [Hq Ho].
           simpl in *. repeat split; try done.
           unfold getPreviewQueries. by destruct (Crawler_PreviewQueries config).
      * apply seed_None in Hseed. rewrite drop_0 in Hseed. lia.
    + split; [|done]. split; [|done]. intros _. right. by apply Hnone.
  - split; [|done]. split; [|done]. intros _. by left.
Qed.

(** X21: the seed list that [getWebringLinks] returns never makes [Crawl]
    panic at [depths[i]]: with a proxy URL that parses, [Crawl] reaches the
    run and its queue holds the links of the seed lines. *)
Theorem Crawl_setup_after_getWebringLinks `{Collaborators} `{Schemes}
  (config : Config) (links : list string) (depths : list Z) :
  getWebringLinks (Crawler_Webring config) = Some (links, depths) ->
  SetupDefaultProxy config = true ->
  exists pol st0,
    Crawl_setup config = Some (pol, st0) /\
    queue st0 = omap seed_link (Crawler_Webring config).
Proof.
  intros Hw Hproxy.
  unfold Crawl_setup. rewrite Hproxy, Hw. simpl.
  unfold getWebringLinks in Hw.
  apply getWebringLinks_loop_Some in Hw as (newd & Hl & Hd & Hlen & _).
  simpl in Hl, Hd. subst links depths.
  destruct (getDomains _) as [ds ps].
  destruct (seed _ newd 0 _) as [st|] eqn:Hseed.
  - eexists _, st. split; [done|]. by apply seed_queue in Hseed as [-> _].
  - apply seed_None in Hseed. rewrite drop_0 in Hseed. lia.
Qed.

Lemma Crawl_setup_after_getWebringLinks_witness :
  let config :=
    mkConfig "root.example" "" ["https://a.example 2"; "b.example/x 1"]
             [] [] [] [] [] [] in
  exists pol st0,
    @Crawl_setup plain plain_schemes config = Some (pol, st0) /\
    queue st0 = omap (@seed_link plain plain_schemes) (Crawler_Webring config).
Proof.
  intros config.
  apply (@Crawl_setup_after_getWebringLinks plain plain_schemes config
           ["https://a.example"; "https://b.example/x"] [2; 1]);
    reflexivity.
Defined.

(** ** Further properties of the discovery protocol *)

Section SetFacts.
Context `{Web}.

Lemma record_cluster_fields cluster st :
  let st' := record_cluster cluster st in
  (forall h, h ∈ checked st' <->
     h ∈ checked st \/ h = mkHypha (Location cluster) (Depth cluster)) /\
  (forall h, h ∈ allHyphae st' <->
     h ∈ allHyphae st \/
     exists v, v ∈ Hyphae cluster /\ h = mkHypha v (wrap64 (Depth cluster + 1))) /\
  (forall s, s ∈ allSites st' <->
     s ∈ allSites st \/ exists v, v ∈ Spores cluster /\ s = mkSite v (Depth cluster)).
Proof.
  unfold record_cluster. simpl. split; [|split].
  - intros h. by rewrite elem_of_union, elem_of_singleton.
  - intros h. apply elem_of_fold_union.
  - intros s. apply elem_of_fold_union.
Qed.

(** What a pass that does not abort leaves: the sets of the state with the
    cluster of the response at hand. *)
Lemma Precrawl_step_sets st st' :
  Precrawl_step st = Continue st' \/ Precrawl_step st = Precrawled st' ->
  exists body,
    ReadAll (res st) = Some body /\
    let st1 := record_cluster (mkCluster (json_Location body) (json_Hyphae body)
                                         (json_Spores body) (depthCounter st)) st in
    checked st' = checked st1 /\ allHyphae st' = allHyphae st1 /\
    allSites st' = allSites st1.
Proof.
  unfold Precrawl_step. destruct (ReadAll (res st)) as [body|]; [|by intros [?|?]].
  intros Hstep. exists body. split; [done|]. cbv zeta.
  case_bool_decide.
  - destruct Hstep as [?|[= <-]]; done.
  - destruct (Pop _ _) as [d|]; [|by destruct Hstep].
    destruct (client_Get (Hypha_Url d)); [|by destruct Hstep].
    destruct Hstep as [[= <-]|?]; done.
Qed.

Lemma Precrawl_step_within st st' :
  Precrawl_step st = Continue st' \/ Precrawl_step st = Precrawled st' ->
  sets_within st st'.
Proof.
  intros (body & _ & Hc & Hh & Hs)%Precrawl_step_sets. cbv zeta in *.
  destruct (record_cluster_fields
              (mkCluster (json_Location body) (json_Hyphae body) (json_Spores body)
                         (depthCounter st)) st) as (Fc & Fh & Fs).
  cbv zeta in *. unfold sets_within. rewrite Hc, Hh, Hs.
  split; [|split]; intros x Hx; [apply Fc|apply Fh|apply Fs]; by left.
Qed.

Lemma sets_within_trans st1 st2 st3 :
  sets_within st1 st2 -> sets_within st2 st3 -> sets_within st1 st3.
Proof.
  intros (Hc & Hh & Hs) (Hc' & Hh' & Hs').
  split; [|split]; etrans; done.
Qed.

Lemma Precrawl_step_linked st st' :
  Precrawl_step st = Continue st' \/ Precrawl_step st = Precrawled st' ->
  depths_linked st -> depths_linked st'.
Proof.
  intros (body & _ & Hc & Hh & Hs)%Precrawl_step_sets [Hsites Hhyphae].
  cbv zeta in *.
  destruct (record_cluster_fields
              (mkCluster (json_Location body) (json_Hyphae body) (json_Spores body)
                         (depthCounter st)) st) as (Fc & Fh & Fs).
  cbv zeta in *. simpl in Fc, Fh, Fs. unfold depths_linked.
  rewrite Hc, Hh, Hs. split.
  - intros s [Hold|(v & _ & ->)]%Fs.
    + destruct (Hsites s Hold) as (c & Hcin & Hd). exists c.
      split; [apply Fc; by left|done].
    + eexists. split; [apply Fc; by right|done].
  - intros h [Hold|(v & _ & ->)]%Fh.
    + destruct (Hhyphae h Hold) as (c & Hcin & Hd). exists c.
      split; [apply Fc; by left|done].
    + eexists. split; [apply Fc; by right|done].
Qed.

(** The pass in which a walk that has ended made its last step. *)
Lemma Precrawl_loop_Done fuel st st' :
  Precrawl_loop fuel st = Done st' ->
  exists n last, (n < fuel)%nat /\ Precrawl_pass n st = Some last /\
                 Precrawl_step last = Precrawled st'.
Proof.
  revert st. induction fuel as [|fuel IH]; intros st; simpl; [done|].
  destruct (Precrawl_step st) as [| |st1] eqn:Hstep; [done| |].
  - intros [= <-]. exists 0%nat, st. split; [lia|]. by split.
  - intros (n & last & Hn & Hpass & Hlast)%IH.
    exists (S n), last. split; [lia|]. simpl. by rewrite Hstep.
Qed.

Lemma Precrawl_loop_Fatal fuel st :
  Precrawl_loop fuel st = Fatal <->
  exists n last, (n < fuel)%nat /\ Precrawl_pass n st = Some last /\
                 Precrawl_step last = Abort.
Proof.
  revert st. induction fuel as [|fuel IH]; intros st; simpl.
  - split; [done|]. intros (n & _ & ? & _). lia.
  - destruct (Precrawl_step st) as [| |st1] eqn:Hstep.
    + split; [|done]. intros _. exists 0%nat, st. split; [lia|]. by split.
    + split; [done|]. intros (n & last & Hn & Hpass & Hlast).
      destruct n as [|n]; simpl in Hpass; [|by rewrite Hstep in Hpass].
      injection Hpass as <-. congruence.
    + rewrite IH. split.
      * intros (n & last & Hn & Hpass & Hlast). exists (S n), last.
        split; [lia|]. simpl. by rewrite Hstep.
      * intros (n & last & Hn & Hpass & Hlast).
        destruct n as [|n]; simpl in Hpass.
        -- injection Hpass as <-. congruence.
        -- rewrite Hstep in Hpass. exists n, last. split; [lia|done].
Qed.

Lemma Precrawl_pass_inv (P : Discovery -> Prop) n st st' :
  (forall s s', Precrawl_step s = Continue s' -> P s -> P s') ->
  Precrawl_pass n st = Some st' -> P st -> P st'.
Proof.
  intros Hstep. revert st. induction n as [|n IH]; intros st; simpl.
  - by intros [= <-].
  - destruct (Precrawl_step st) as [| |st1] eqn:E; try done.
    intros Hpass HP. apply (IH st1 Hpass). by apply (Hstep st).
Qed.

End SetFacts.

Lemma Precrawl_within `{Web} (st : Discovery) :
  (forall n st', Precrawl_pass n st = Some st' -> sets_within st st') /\
  (forall fuel st', Precrawl_loop fuel st = Done st' -> sets_within st st').
Proof.
  assert (Hpass : forall n st', Precrawl_pass n st = Some st' -> sets_within st st').
  { intros n st' Hp.
    apply (Precrawl_pass_inv (sets_within st) n st st'); [|done|].
    - intros s s' Hs Hw. eapply sets_within_trans; [exact Hw|].
      apply Precrawl_step_within. by left.
    - by split; [|split]. }
  split; [exact Hpass|].
  intros fuel st' (n & last & _ & Hp & Hlast)%Precrawl_loop_Done.
  eapply sets_within_trans; [by apply (Hpass n)|].
  apply Precrawl_step_within. by right.
Qed.

(** X22: the walk only ever adds to its three sets: what is checked, seen
    as a hypha or seen as a site at the start of a pass still is at every
    later pass and when the walk ends. *)
Theorem Precrawl_sets_grow `{Web} (st : Discovery) :
  (forall n st', Precrawl_pass n st = Some st' -> sets_within st st') /\
  (forall fuel st', Precrawl_loop fuel st = Done st' -> sets_within st st').
Proof. apply Precrawl_within. Qed.

(** X23: when the walk has ended, every hypha that was ever seen is checked,
    under its URL and its depth; and a run that is not fatal ended on a
    response with status 200. *)
Theorem Precrawl_ends_with_all_checked `{Collaborators} `{Web}
  (config : Config) (fuel : nat) (st : Discovery) :
  Precrawl_discover config fuel = Done st ->
  allHyphae st ⊆ checked st /\ StatusCode (res st) = 200.
Proof.
  unfold Precrawl_discover. destruct (negb _); [done|].
  destruct (client_Get _) as [r|]; [|done].
  destruct (Precrawl_loop fuel _) as [| |st'] eqn:Hloop; try done.
  case_bool_decide as Hstatus; [done|]. intros [= <-].
  split; [|by destruct (decide (StatusCode (res st') = 200))].
  apply Precrawl_loop_Done in Hloop as (n & last & _ & _ & Hlast).
  unfold Precrawl_step in Hlast.
  destruct (ReadAll (res last)) as [body|]; [|done].
  case_bool_decide as Hsize.
  - injection Hlast as <-. apply size_empty_iff in Hsize.
    intros x Hx. match goal with |- x ∈ ?c => destruct (decide (x ∈ c)) as [|Hno] end;
      [done|].
    exfalso. apply (proj1 (elem_of_equiv_empty _) Hsize x).
    by apply elem_of_difference.
  - destruct (Pop _ _) as [d|]; [|done]. by destruct (client_Get (Hypha_Url d)).
Qed.

Lemma Precrawl_ends_with_all_checked_witness :
  exists st,
    @Precrawl_discover plain two_documents (discovery_config []) 2 = Done st /\
    allHyphae st ⊆ checked st.
Proof.
  eexists. split; [vm_compute; reflexivity|].
  refine (proj1 (@Precrawl_ends_with_all_checked plain two_documents
                   (discovery_config []) 2 _ _)).
  vm_compute. reflexivity.
Defined.

(** X24: spores are flat and hyphae are one level down: at every pass, and
    when the walk has ended, every site has the depth of some checked hypha
    and every hypha seen is one deeper (in [int] arithmetic) than some
    checked hypha; the document of the first request is checked at depth 0. *)
Theorem Precrawl_depths `{Web} (r : Response) :
  (forall n st, Precrawl_pass n (walk_start r) = Some st -> depths_linked st) /\
  (forall fuel st, Precrawl_loop fuel (walk_start r) = Done st ->
     depths_linked st /\
     exists body, ReadAll r = Some body /\ mkHypha (json_Location body) 0 ∈ checked st).
Proof.
  assert (Hstart : depths_linked (walk_start r)).
  { split; intros x Hx; simpl in Hx; by apply not_elem_of_empty in Hx. }
  assert (Hpass : forall n st, Precrawl_pass n (walk_start r) = Some st -> depths_linked st).
  { intros n st Hp.
    apply (Precrawl_pass_inv depths_linked n (walk_start r) st); [|done|done].
    intros s s' Hs. apply Precrawl_step_linked. by left. }
  split; [exact Hpass|].
  intros fuel st Hloop. split.
  - apply Precrawl_loop_Done in Hloop as (n & last & _ & Hp & Hlast).
    apply (Precrawl_step_linked last st); [by right|by apply (Hpass n)].
  - destruct fuel as [|fuel]; [done|]. simpl in Hloop.
    destruct (Precrawl_step (walk_start r)) as [| |st1] eqn:Hstep; [done| |].
    + injection Hloop as Heq. rewrite Heq in Hstep.
      destruct (Precrawl_step_sets (walk_start r) st (or_intror Hstep))
        as (body & Hb & Hc & _).
      exists body. split; [done|]. cbv zeta in Hc. rewrite Hc. simpl.
      apply elem_of_union. right. by apply elem_of_singleton.
    + destruct (Precrawl_step_sets (walk_start r) st1 (or_introl Hstep))
        as (body & Hb & Hc & _).
      exists body. split; [done|].
      destruct (Precrawl_within st1) as [_ Hgrow].
      apply (Hgrow fuel st Hloop). cbv zeta in Hc. rewrite Hc. simpl.
      apply elem_of_union. right. by apply elem_of_singleton.
Qed.

Section FatalFacts.
Context `{Web}.

Lemma Precrawl_step_Abort st : Precrawl_step st = Abort <-> pass_fails st.
Proof.
  unfold Precrawl_step, pass_fails.
  destruct (ReadAll (res st)) as [body|]; [|split; [by left|done]].
  cbv zeta. set (st1 := record_cluster _ st).
  case_bool_decide as Hsize.
  - split; [done|]. intros [?|(b & d & [= <-] & Hpop & _)]; [done|].
    apply Pop_elem_of in Hpop. apply size_empty_iff in Hsize.
    exfalso. by apply (proj1 (elem_of_equiv_empty _) Hsize d).
  - destruct (Pop_is_Some (iteration st1) _ Hsize) as [d Hpop]. rewrite Hpop.
    destruct (client_Get (Hypha_Url d)) as [r|] eqn:Hget.
    + split; [done|]. intros [?|(b & d' & [= <-] & Hpop' & Hget')]; [done|].
      fold st1 in Hpop'. congruence.
    + split; [|done]. intros _. right. exists body, d. by repeat split.
Qed.

End FatalFacts.

(** X25: [Precrawl] ends in [log.Fatal] exactly in these cases: the proxy
    URL does not parse; the first request fails; in some pass the body
    cannot be read or the request for the next hypha fails; or the walk ends
    on a response whose status is not 200. *)
Theorem Precrawl_Fatal_iff `{Collaborators} `{Web} (config : Config) (fuel : nat) :
  Precrawl config fuel = Fatal <->
  SetupDefaultProxy config = false \/
  client_Get (General_URL config) = None \/
  exists r,
    client_Get (General_URL config) = Some r /\
    ((exists n st, (n < fuel)%nat /\
                   Precrawl_pass n (walk_start r) = Some st /\ pass_fails st) \/
     (exists st, Precrawl_loop fuel (walk_start r) = Done st /\
                 StatusCode (res st) <> 200)).
Proof.
  unfold Precrawl, Precrawl_discover.
  destruct (SetupDefaultProxy config); simpl; [|split; [by left|done]].
  destruct (client_Get (General_URL config)) as [r|]; [|split; [right; by left|done]].
  change (mkDiscovery r 0 ∅ ∅ ∅ 0) with (walk_start r).
  destruct (Precrawl_loop fuel (walk_start r)) as [| |st] eqn:Hloop.
  - split; [done|]. intros [?|[?|(r' & [= <-] & [Hfail|Hlast])]]; try done.
    + destruct Hfail as (n & st & Hn & Hpass & Hfail).
      apply Precrawl_step_Abort in Hfail.
      assert (Hf : Precrawl_loop fuel (walk_start r) = Fatal)
        by (apply Precrawl_loop_Fatal; by exists n, st).
      congruence.
    + destruct Hlast as (st & Hd & _). congruence.
  - split; [|done]. intros _. right; right. exists r. split; [done|]. left.
    apply Precrawl_loop_Fatal in Hloop as (n & st & Hn & Hpass & Hab).
    exists n, st. split; [done|]. split; [done|]. by apply Precrawl_step_Abort.
  - case_bool_decide as Hstatus.
    + split; [|done]. intros _. right; right. exists r. split; [done|].
      right. by exists st.
    + split; [done|]. intros [?|[?|(r' & [= <-] & [Hfail|Hlast])]]; try done.
      * destruct Hfail as (n & st' & Hn & Hpass & Hfail).
        apply Precrawl_step_Abort in Hfail.
        assert (Hf : Precrawl_loop fuel (walk_start r) = Fatal)
          by (apply Precrawl_loop_Fatal; by exists n, st').
        congruence.
      * destruct Hlast as (st' & Hd & Hne). rewrite Hloop in Hd.
        injection Hd as <-. by destruct Hne.
Qed.

(** X26: every pair that [Precrawl] prints comes from a discovered site: it
    is the normalized URL of the site with the depth of the site; the URL
    holds neither [#] nor [?], it parses, and its hostname is no entry of
    the banned domains. *)
Theorem Precrawl_prints_only_allowed `{Collaborators} `{Web}
  (config : Config) (fuel : nat) (lines : list (string * Z)) :
  Precrawl config fuel = Done lines ->
  forall link depth, (link, depth) ∈ lines ->
    (exists st h, Precrawl_discover config fuel = Done st /\ h ∈ allSites st /\
                  link = getLink (Site_Url h) /\ depth = Site_Depth h) /\
    (exists u, url_Parse link = Some u /\ Hostname u ∉ Crawler_BannedDomains config) /\
    GoStrings.Contains link "#" = false /\
    GoStrings.Contains link "?" = false.
Proof.
  intros (st & Hdisc & ->)%Precrawl_Done link depth Hin.
  apply list_elem_of_In, in_flat_map in Hin as (h & Hh%list_elem_of_In & Hline).
  apply elem_of_elements in Hh. unfold emit_site in Hline.
  destruct (url_Parse (getLink (Site_Url h))) as [u|] eqn:Hparse; [|done].
  destruct (find _ (Hostname u)) eqn:Hfind; [done|].
  destruct Hline as [[= <- <-]|[]].
  split; [by exists st, h|]. split; [|apply getLink_clean].
  exists u. split; [done|]. rewrite <- find_spec. congruence.
Qed.

Lemma Precrawl_prints_only_allowed_witness :
  exists u, @url_Parse plain "https://c" = Some u /\
            Hostname u ∉ ["banned.example"].
Proof.
  assert (Hrun : @Precrawl plain two_documents (discovery_config ["banned.example"]) 2
                 = Done [("https://b", 0); ("https://c", 1)])
    by (vm_compute; reflexivity).
  refine (proj1 (proj2 (@Precrawl_prints_only_allowed plain two_documents
                          (discovery_config ["banned.example"]) 2 _ Hrun
                          "https://c" 1 _))).
  right. by left.
Defined.

(** ** Statuses before the last *)

Section StatusFacts.
Context `{Collaborators} (W : Web).

Lemma Precrawl_step_all_ok st :
  @Precrawl_step (all_ok W) (ok_state st)
  = match @Precrawl_step W st with
    | Abort => Abort
    | Precrawled st' => Precrawled (ok_state st')
    | Continue st' => Continue (ok_state st')
    end.
Proof.
  unfold Precrawl_step. destruct st as [r dc ch ah sites it].
  cbn [ok_state res status_ok ReadAll depthCounter].
  destruct (ReadAll r) as [b|]; [|reflexivity].
  unfold record_cluster.
  cbn [Location Hyphae Spores Depth res depthCounter checked allHyphae allSites iteration].
  destruct (bool_decide _); [reflexivity|].
  unfold Pop. cbn [Pop_choice all_ok].
  destruct (elements _ !! _) as [d|]; [|reflexivity].
  cbn [client_Get all_ok].
  destruct (@client_Get W (Hypha_Url d)); reflexivity.
Qed.

Lemma Precrawl_loop_all_ok fuel st :
  @Precrawl_loop (all_ok W) fuel (ok_state st)
  = match @Precrawl_loop W fuel st with
    | OutOfFuel => OutOfFuel
    | Fatal => Fatal
    | Done st' => Done (ok_state st')
    end.
Proof.
  revert st. induction fuel as [|fuel IH]; intros st; cbn [Precrawl_loop]; [done|].
  rewrite Precrawl_step_all_ok.
  destruct (@Precrawl_step W st); [reflexivity|reflexivity|apply IH].
Qed.

Lemma Precrawl_all_ok config fuel :
  @Precrawl _ (all_ok W) config fuel
  = if negb (SetupDefaultProxy config) then Fatal
    else match @client_Get W (General_URL config) with
         | None => Fatal
         | Some r =>
             match @Precrawl_loop W fuel (walk_start r) with
             | OutOfFuel => OutOfFuel
             | Fatal => Fatal
             | Done st =>
                 Done (flat_map (emit_site (Crawler_BannedDomains config))
                                (elements (allSites st)))
             end
         end.
Proof.
  unfold Precrawl, Precrawl_discover. destruct (negb _); [done|].
  cbn [all_ok client_Get].
  destruct (@client_Get W (General_URL config)) as [r|]; cbn [option_map]; [|done].
  change (mkDiscovery (status_ok r) 0 ∅ ∅ ∅ 0) with (ok_state (walk_start r)).
  rewrite Precrawl_loop_all_ok.
  by destruct (@Precrawl_loop W fuel (walk_start r)) as [| |st].
Qed.

End StatusFacts.

(** X27: only the status of the last response is looked at.  A run that
    prints its sites prints the same when every status on the way is
    replaced by 200; and when all statuses are 200 and the run prints its
    sites, the run on the real statuses prints the same or is fatal because
    of the last status alone. *)
Theorem Precrawl_reads_last_status_only `{Collaborators} (W : Web)
  (config : Config) (fuel : nat) (lines : list (string * Z)) :
  (@Precrawl _ W config fuel = Done lines ->
   @Precrawl _ (all_ok W) config fuel = Done lines) /\
  (@Precrawl _ (all_ok W) config fuel = Done lines ->
   @Precrawl _ W config fuel = Done lines \/
   exists r st,
     @client_Get W (General_URL config) = Some r /\
     @Precrawl_loop W fuel (walk_start r) = Done st /\
     StatusCode (res st) <> 200 /\ @Precrawl _ W config fuel = Fatal).
Proof.
  rewrite Precrawl_all_ok. unfold Precrawl, Precrawl_discover.
  destruct (negb _); [by split|].
  destruct (@client_Get W (General_URL config)) as [r|]; [|by split].
  change (mkDiscovery r 0 ∅ ∅ ∅ 0) with (walk_start r).
  destruct (@Precrawl_loop W fuel (walk_start r)) as [| |st] eqn:Hloop;
    [by split|by split|].
  case_bool_decide as Hstatus.
  - split; [done|]. intros _. right. by exists r, st.
  - split; [done|]. intros Hd. by left.
Qed.

(** X28: the error of [json.Unmarshal] is never looked at: the run is the
    same, pass by pass and in what it prints, as on the web in which no
    decoding returns an error. *)
Theorem Precrawl_never_reads_decode_error `{Collaborators} (W : Web)
  (config : Config) (fuel : nat) :
  @Precrawl _ (without_errors W) config fuel = @Precrawl _ W config fuel.
Proof. apply Precrawl_without_errors. Qed.

(** ** A document that lists itself *)

Section SelfListing.
Context `{Web}.
Variables (u : string) (r : Response) (body : Unmarshalled).
Hypothesis get_u : client_Get u = Some r.
Hypothesis read_r : ReadAll r = Some body.
Hypothesis location_u : json_Location body = u.
Hypothesis hyphae_u : json_Hyphae body = [u].

Lemma self_listing_step k st :
  0 <= k -> k + 1 < 2 ^ 64 ->
  self_listing_at u r k st ->
  exists st', Precrawl_step st = Continue st' /\ self_listing_at u r (k + 1) st'.
Proof.
  intros Hk Hk1 (Hres & Hdc & Hch & Hall).
  set (d := mkHypha u (wrap64 (k + 1))).
  assert (Hb : ReadAll (res st) = Some body) by (by rewrite Hres).
  pose proof (Precrawl_step_next st body d r Hb) as Hstep.
  cbv zeta in Hstep. eexists. split.
  - apply Hstep; [|exact get_u].
    unfold record_cluster. cbn [checked allHyphae Location Hyphae Depth].
    rewrite location_u, hyphae_u. cbn [fold_left].
    rewrite Hdc, wrap64_succ. apply set_eq. intros h.
    rewrite elem_of_difference, !elem_of_union, !elem_of_singleton, Hch, Hall.
    fold d. split.
    + intros [[(i & Hi & ->)| ->] Hno]; [|done].
      exfalso. apply Hno. destruct (decide (i = k)) as [->|]; [by right|].
      left. exists i. split; [lia|done].
    + intros ->. split; [by right|].
      intros [(i & Hi & Heq)|Heq]; injection Heq as Heq;
        apply wrap64_inj in Heq; lia.
  - unfold record_cluster.
    cbn [res depthCounter checked allHyphae Location Hyphae Depth Hypha_Depth d].
    rewrite location_u, hyphae_u. cbn [fold_left].
    split; [done|]. split; [done|]. split.
    + intros h. cbn [checked]. rewrite elem_of_union, elem_of_singleton, Hch, Hdc. split.
      * intros [(i & Hi & ->)| ->]; [exists i|exists k]; split; (lia || done).
      * intros (i & Hi & ->). destruct (decide (i = k)) as [->|]; [by right|].
        left. exists i. split; [lia|done].
    + intros h. cbn [allHyphae].
      rewrite elem_of_union, elem_of_singleton, Hall, Hdc, wrap64_succ. split.
      * intros [(i & Hi & ->)| ->]; [exists i|exists (k + 1)]; split; (lia || done).
      * intros (i & Hi & ->). destruct (decide (i = k + 1)) as [->|]; [by right|].
        left. exists i. split; [lia|done].
Qed.

Lemma self_listing_loop (n : nat) :
  Z.of_nat n < 2 ^ 64 -> Precrawl_loop n (walk_start r) = OutOfFuel.
Proof.
  assert (Hgen : forall n k st,
             0 <= k -> k + Z.of_nat n < 2 ^ 64 -> self_listing_at u r k st ->
             Precrawl_loop n st = OutOfFuel).
  { clear n. induction n as [|n IH]; intros k st Hk Hn Hst; [done|].
    cbn [Precrawl_loop].
    destruct (self_listing_step k st Hk ltac:(lia) Hst) as (st' & -> & Hst').
    apply (IH (k + 1)); [lia|lia|done]. }
  intros Hn. apply (Hgen n 0); [lia|lia|].
  split; [done|]. split; [done|]. split; intros h; simpl.
  - split; [by intros ?%not_elem_of_empty|]. intros (i & Hi & _). lia.
  - split; [by intros ?%not_elem_of_empty|]. intros (i & Hi & _). lia.
Qed.

End SelfListing.

(** X29: a cycle is not recognised, a hypha being a URL with its depth.
    When the first document names itself as location and lists its own URL
    as its only hypha, every pass requests the same URL one level deeper:
    the run has not ended after any number of passes below 2^64, whatever
    [Pop] chooses and whatever the status and the spores are. *)
Theorem Precrawl_self_listing_keeps_running `{Collaborators} `{Web}
  (config : Config) (r : Response) (body : Unmarshalled) (n : nat) :
  SetupDefaultProxy config = true ->
  client_Get (General_URL config) = Some r ->
  ReadAll r = Some body ->
  json_Location body = General_URL config ->
  json_Hyphae body = [General_URL config] ->
  Z.of_nat n < 2 ^ 64 ->
  Precrawl config n = OutOfFuel.
Proof.
  intros Hproxy Hget Hread Hloc Hhy Hn.
  unfold Precrawl, Precrawl_discover. rewrite Hproxy, Hget. cbn [negb].
  change (mkDiscovery r 0 ∅ ∅ ∅ 0) with (walk_start r).
  by rewrite (self_listing_loop (General_URL config) r body Hget Hread Hloc Hhy n Hn).
Qed.

Lemma Precrawl_self_listing_keeps_running_witness :
  @Precrawl plain
     {| client_Get := fun _ => Some (document 404 "https://a" ["https://a"] ["https://b"]);
        Pop_choice := fun n => n |}
     (discovery_config []) 1000 = OutOfFuel.
Proof.
  apply (@Precrawl_self_listing_keeps_running plain _ (discovery_config [])
           (document 404 "https://a" ["https://a"] ["https://b"])
           (mkUnmarshalled "https://a" ["https://a"] ["https://b"] false) 1000);
    try reflexivity.
Defined.

(** ** The size of the records *)

Section SizeFacts.
Context `{Collaborators}.

Lemma length_to_bytes s : length (to_bytes s) = String.length s.
Proof. unfold to_bytes. induction s; simpl; congruence. Qed.

Lemma len_of_bytes l : GoStrings.len (of_bytes l) = Z.of_nat (length l).
Proof. unfold GoStrings.len. by rewrite <- length_to_bytes, to_of_bytes. Qed.

Lemma collapse_Z_length in_run skip s :
  (length (GoStrings.collapse_Z in_run skip s) <= length s)%nat.
Proof.
  revert in_run skip. induction s as [|a s IH]; intros in_run skip;
    cbn [GoStrings.collapse_Z]; [done|].
  destruct skip as [|k].
  - destruct (GoStrings.leading _ _) as [p|].
    + rewrite length_app. pose proof (IH true (Nat.pred (length p))).
      destruct in_run; simpl; lia.
    + simpl. pose proof (IH false 0%nat). lia.
  - pose proof (IH in_run k). simpl. lia.
Qed.

(** Cleaning never makes a text longer. *)
Lemma cleanText_length t : GoStrings.len (cleanText t) <= GoStrings.len t.
Proof.
  unfold cleanText, GoStrings.ReplaceAllZ, GoStrings.ReplaceAll, GoStrings.TrimSpace.
  rewrite len_of_bytes, !to_of_bytes.
  pose proof (collapse_Z_length false 0
                (GoStrings.replace_byte "010" " " (GoStrings.trim_space (to_bytes t)))) as Hc.
  unfold GoStrings.replace_byte in Hc at 2. rewrite length_map in Hc.
  destruct (trim_space_infix (to_bytes t)) as (a & b & Hab).
  apply (f_equal length) in Hab. rewrite !length_app, length_to_bytes in Hab.
  unfold GoStrings.len. lia.
Qed.

Lemma sized_refl st : sized st st.
Proof. exists []. by rewrite app_nil_r. Qed.

Lemma sized_trans st1 st2 st3 : sized st1 st2 -> sized st2 st3 -> sized st1 st3.
Proof.
  intros (n1 & Ho1 & Hf1) (n2 & Ho2 & Hf2). exists (n1 ++ n2).
  split; [by rewrite Ho2, Ho1, app_assoc|]. by apply Forall_app.
Qed.

Lemma sized_report k text e st :
  match payload_limits k with
  | Some (lo, hi) => lo < GoStrings.len text < hi
  | None => True
  end ->
  sized st (report k text e st).
Proof. intros Hk. eexists. split; [done|]. by constructor. Qed.

Lemma sized_AddURL u st st' : sized st st' -> sized st (AddURL u st').
Proof. by intros (new & Ho & Hf); exists new. Qed.

Lemma sized_guarded (lo hi : Z) k text e st (b : bool) :
  payload_limits k = Some (lo, hi) ->
  (b = true -> lo < GoStrings.len text < hi) ->
  sized st (if b then report k text e st else st).
Proof.
  intros Hk Hb. destruct b; [|apply sized_refl].
  apply sized_report. rewrite Hk. by apply Hb.
Qed.

Lemma sized_collectHeadingText heading e st :
  payload_limits heading = Some (-1, 500) ->
  sized st (collectHeadingText heading e st).
Proof.
  intros Hk. unfold collectHeadingText. generalize (ChildTexts e heading).
  intros texts. revert st.
  induction texts as [|t texts IH]; intros st; cbn [fold_left]; [apply sized_refl|].
  eapply sized_trans; [|apply IH].
  apply (sized_guarded (-1) 500); [done|]. intros Hlen%Z.ltb_lt.
  pose proof (cleanText_length t). unfold GoStrings.len in *. lia.
Qed.

Lemma sized_OnLink pol e st : sized st (OnLink pol e st).
Proof.
  unfold OnLink.
  destruct (_ || _); [apply sized_refl|].
  destruct (findSuffix _ _); [apply sized_refl|].
  destruct (url_Parse _) as [u|]; [|apply sized_refl].
  cbv zeta.
  match goal with
  | |- context [AddURL _ ?s] => assert (Hlog : sized st s)
  end.
  { repeat match goal with
           | |- sized _ (if ?b then _ else _) => destruct b
           end; first [apply sized_refl | by apply sized_report]. }
  repeat match goal with
         | |- sized _ (if ?b then _ else _) => destruct b
         end; first [exact Hlog | by apply sized_AddURL].
Qed.

Lemma sized_OnBody pol e st : sized st (OnBody pol e st).
Proof.
  unfold OnBody. cbv zeta.
  eapply sized_trans; [|by apply sized_collectHeadingText].
  eapply sized_trans; [|by apply sized_collectHeadingText].
  eapply sized_trans; [|by apply sized_collectHeadingText].
  match goal with
  | |- sized _ (if _ then report _ _ _ ?s else _) => assert (Hpara : sized st s)
  end.
  { destruct (QueryLoop _ _ e) as [p|] eqn:Hq; [|apply sized_refl].
    apply sized_report. cbn.
    rewrite QueryLoop_find in Hq. apply find_some in Hq as [_ Hok].
    unfold preview_ok in Hok. apply andb_true_iff in Hok as [Hok _].
    apply andb_true_iff in Hok as [H1%Z.ltb_lt H2%Z.ltb_lt]. lia. }
  eapply sized_trans; [exact Hpara|].
  apply (sized_guarded 0 1500); [done|].
  intros [H1%Z.ltb_lt H2%Z.ltb_lt]%andb_true_iff. lia.
Qed.

Lemma sized_callback pol cb e st : sized st (callback pol cb e st).
Proof.
  destruct cb; cbn [callback].
  - apply sized_OnLink.
  - by apply sized_report.
  - apply (sized_guarded 0 1500); [done|].
    intros [H1%Z.ltb_lt H2%Z.ltb_lt]%andb_true_iff. lia.
  - apply (sized_guarded 0 1500); [done|].
    intros [H1%Z.ltb_lt H2%Z.ltb_lt]%andb_true_iff. lia.
  - apply (sized_guarded 0 100); [done|].
    intros [H1%Z.ltb_lt H2%Z.ltb_lt]%andb_true_iff. lia.
  - by apply sized_report.
  - apply sized_OnBody.
Qed.

Lemma sized_Crawl_run pol calls st : sized st (Crawl_run pol calls st).
Proof.
  revert st. induction calls as [|[cb e] calls IH]; intros st; simpl;
    [apply sized_refl|].
  eapply sized_trans; [apply sized_callback|apply IH].
Qed.

End SizeFacts.

(** X30: the records of a run keep the bounds of their kind: a "desc", an
    "og-desc" and a "para-just-p" have between 1 and 1499 bytes, a "lang"
    between 1 and 99, a "para" between 21 and 1499, and a heading of level
    1, 2 or 3 fewer than 500 (the bound is tested on the raw heading, and
    cleaning never makes a text longer). *)
Theorem Crawl_run_payload_bounds `{Collaborators}
  (pol : Policy) (calls : list (Callback * HTMLElement)) (st : CrawlState) (l : Line) :
  l ∈ emitted st (Crawl_run pol calls st) ->
  match payload_limits (kind l) with
  | Some (lo, hi) => lo < GoStrings.len (payload l) < hi
  | None => True
  end.
Proof.
  destruct (sized_Crawl_run pol calls st) as (new & Ho & Hf).
  rewrite (emitted_app _ _ _ Ho). intros Hin.
  rewrite Forall_forall in Hf. by apply (Hf l).
Qed.

Lemma Crawl_run_payload_bounds_witness :
  let e := mkElement (fun _ => "en")
                     "" (fun _ => []) (fun _ => [])
                     alice_home (fun l => l) 200 in
  0 < GoStrings.len "en" < 100.
Proof.
  intros e.
  apply (@Crawl_run_payload_bounds plain (shared_policy []) [(on_lang, e)]
           (mkCrawl ∅ [] []) (mkLine "lang" "en" "https://shared.example/~alice" 0)).
  vm_compute. by left.
Defined.
